(** * The load-balancer spec builder of the ingress model
    ([pkg/ingress/model_build_load_balancer.go])

    A shallow embedding of the builder that turns the annotations of the
    members of an ingress group into one [LoadBalancerSpec], together with
    the properties of its merge rules, its name generator, its reference
    resolvers and its selection between explicit configuration and
    fallback.

    Go strings are byte sequences; they are modelled by [string], whose
    characters are the 256 values of [ascii]. Go slices are lists, Go maps
    are [gmap]s, [sets.String] is [gset string]. A Go function returning
    [(value, error)] returns a [result]; the functions that call the
    collaborators of the build task also record those calls, in order. *)

From Stdlib Require Import ZArith Ascii String.
From stdpp Require Import base option list sorting gmap strings.

Local Open Scope Z_scope.

(** ** crypto/sha256 and encoding/hex (Go standard library) *)

Module SHA256.

Definition add32 (x y : Z) : Z := (x + y) mod 2 ^ 32.

Definition rotr (n x : Z) : Z :=
  Z.lor (Z.shiftr x n) (Z.shiftl x (32 - n) mod 2 ^ 32).

Definition Ch (x y z : Z) : Z :=
  Z.lxor (Z.land x y) (Z.land (Z.lxor x (Z.ones 32)) z).

Definition Maj (x y z : Z) : Z :=
  Z.lxor (Z.lxor (Z.land x y) (Z.land x z)) (Z.land y z).

Definition Sigma0 (x : Z) : Z :=
  Z.lxor (Z.lxor (rotr 2 x) (rotr 13 x)) (rotr 22 x).

Definition Sigma1 (x : Z) : Z :=
  Z.lxor (Z.lxor (rotr 6 x) (rotr 11 x)) (rotr 25 x).

Definition sigma0 (x : Z) : Z :=
  Z.lxor (Z.lxor (rotr 7 x) (rotr 18 x)) (Z.shiftr x 3).

Definition sigma1 (x : Z) : Z :=
  Z.lxor (Z.lxor (rotr 17 x) (rotr 19 x)) (Z.shiftr x 10).

(** The first sixty-four primes. *)
Definition primes : list Z :=
  Eval vm_compute in
    filter (λ p, forallb (λ d, negb (p mod d =? 0)) (seqZ 2 (p - 2))) (seqZ 2 310).

(** The integer cube root, bit by bit from bit [n - 1] down. *)
Fixpoint cbrt_bits (n : nat) (x r : Z) : Z :=
  match n with
  | O => r
  | S n' =>
      let r' := r + 2 ^ Z.of_nat n' in
      if r' ^ 3 <=? x then cbrt_bits n' x r' else cbrt_bits n' x r
  end.

(** The round constants: the first 32 bits of the fractional parts of the
    cube roots of the primes. *)
Definition K : list Z :=
  Eval vm_compute in (λ p, cbrt_bits 40 (p * 2 ^ 96) 0 mod 2 ^ 32) <$> primes.

(** The initial hash value: the first 32 bits of the fractional parts of
    the square roots of the first eight primes. *)
Definition H0 : list Z :=
  Eval vm_compute in (λ p, Z.sqrt (p * 2 ^ 64) mod 2 ^ 32) <$> take 8 primes.

(** Big-endian encoding of [x] on [n] bytes. *)
Fixpoint be_bytes (n : nat) (x : Z) : list Z :=
  match n with
  | O => []
  | S n' => (Z.shiftr x (8 * Z.of_nat n')) mod 256 :: be_bytes n' x
  end.

Definition be_word (bs : list Z) : Z :=
  foldl (λ acc b, acc * 256 + b) 0 bs.

(** The message followed by 0x80, zeros up to 56 modulo 64, and the
    length in bits on 8 bytes. *)
Definition pad (msg : list Z) : list Z :=
  let len := Z.of_nat (length msg) in
  let zeros := Z.to_nat ((55 - len) mod 64) in
  msg ++ [0x80] ++ replicate zeros 0 ++ be_bytes 8 (8 * len).

Fixpoint chunks (fuel n : nat) (l : list Z) : list (list Z) :=
  match fuel with
  | O => []
  | S fuel' =>
      match l with
      | [] => []
      | _ => take n l :: chunks fuel' n (drop n l)
      end
  end.

Definition words (block : list Z) : list Z :=
  be_word <$> chunks 16 4 block.

(** One round: [w] is the window of the last sixteen schedule words,
    [st] the working variables a..h. *)
Definition round (stw : list Z * list Z) (k : Z) : list Z * list Z :=
  let '(st, w) := stw in
  match st with
  | [a; b; c; d; e; f; g; h] =>
      let wt := w !!! 0%nat in
      let t1 := add32 (add32 (add32 (add32 h (Sigma1 e)) (Ch e f g)) k) wt in
      let t2 := add32 (Sigma0 a) (Maj a b c) in
      let wn := add32 (add32 (add32 (sigma1 (w !!! 14%nat)) (w !!! 9%nat))
                        (sigma0 (w !!! 1%nat))) wt in
      ([add32 t1 t2; a; b; c; add32 d t1; e; f; g], drop 1 w ++ [wn])
  | _ => stw
  end.

Definition compress (h : list Z) (block : list Z) : list Z :=
  zip_with add32 h (foldl round (h, words block) K).1.

Definition Sum256 (msg : list Z) : list Z :=
  let p := pad msg in
  mjoin (be_bytes 4 <$> foldl compress H0 (chunks (length p) 64 p)).

End SHA256.

(** A Go string as the bytes it holds, and back. *)
Definition bytes_of_string (s : string) : list Z :=
  (λ c, Z.of_N (N_of_ascii c)) <$> list_ascii_of_string s.

Definition hexdigit (n : Z) : ascii :=
  if n <? 10 then ascii_of_N (Z.to_N (48 + n)) else ascii_of_N (Z.to_N (87 + n)).

(** [hex.EncodeToString]: two lower-case digits per byte. *)
Fixpoint EncodeToString (bs : list Z) : string :=
  match bs with
  | [] => EmptyString
  | b :: bs' =>
      String (hexdigit (Z.shiftr b 4)) (String (hexdigit (Z.land b 15)) (EncodeToString bs'))
  end.

(** ** Strings: strings.HasPrefix, regexp and fmt *)

Local Open Scope string_scope.
Local Open Scope list_scope.

(** [strings.HasPrefix(s, prefix)]. *)
Definition HasPrefix (s prefix : string) : bool := String.prefix prefix s.

(** The POSIX class [[:alnum:]]: the ASCII letters and digits. *)
Definition alnum (c : ascii) : bool :=
  let n := N_of_ascii c in
  ((48 <=? n) && (n <=? 57) || (65 <=? n) && (n <=? 90) || (97 <=? n) && (n <=? 122))%N.

(** A regular expression that is one character class, as the only pattern
    of the file is; the class is given by its membership test. *)
Record Regexp := MustCompile { class : ascii → bool }.

(** [re.ReplaceAllString(src, repl)] for such a pattern: each matching
    character is replaced by [repl]. A character outside ASCII is, in Go,
    a rune of several bytes, or an invalid byte read as one rune; each of
    its bytes is at least 0x80, so the byte-wise scan replaces the same
    bytes as the rune-wise one whenever [repl] is empty. *)
Fixpoint ReplaceAllString (re : Regexp) (src repl : string) : string :=
  match src with
  | EmptyString => EmptyString
  | String c rest =>
      if class re c then repl +:+ ReplaceAllString re rest repl
      else String c (ReplaceAllString re rest repl)
  end.

(** The verb [%.Ns] of [fmt.Sprintf]: at most the first [n] characters. *)
Fixpoint truncate (n : nat) (s : string) : string :=
  match n, s with
  | S n', String c rest => String c (truncate n' rest)
  | _, _ => EmptyString
  end.

(** [[[:^alnum:]]]: any character that is not alphanumeric. *)
Definition invalidLoadBalancerNamePattern : Regexp :=
  MustCompile (λ c, negb (alnum c)).

(** ** Data model *)

(** [awssdk.String], [awssdk.StringValue], [awssdk.StringSlice]: the SDK
    passes strings by pointer, a nil pointer reads as the empty string. *)
Definition awssdk_String (s : string) : option string := Some s.
Definition awssdk_StringValue (p : option string) : string := default "" p.
Definition awssdk_StringSlice (l : list string) : list (option string) := Some <$> l.

Record Subnet := { SubnetId : option string; AvailabilityZone : option string }.
Record SecurityGroup := { GroupId : option string }.
Record Filter := { Filter_Name : option string; Filter_Values : list (option string) }.
Record DescribeSubnetsInput :=
  { SubnetIds : list (option string); SubnetFilters : list Filter }.
Record DescribeSecurityGroupsInput :=
  { GroupIds : list (option string); SecurityGroupFilters : list Filter }.

Record SubnetMapping := { SubnetID : string }.
Record LoadBalancerAttribute := { Key : string; Value : string }.

(** [core.StringToken]: a literal, or the identifier of a resource of the
    stack that is known only once the resource exists. *)
Inductive StringToken :=
| LiteralStringToken (s : string)
| ResourceFieldStringToken (resource field : string).

(** The security group of the model ([ec2model.SecurityGroup]), seen
    through its [GroupID()] token. *)
Record ManagedSecurityGroup := { sg_GroupID : StringToken }.

Record GroupID := { Namespace : string; Name : string }.
Record Ingress := { Annotations : gmap string string }.
Record Group := { ID : GroupID; Members : list Ingress }.

Record LoadBalancerSpec := {
  spec_Name : string;
  spec_Type : string;
  spec_Scheme : option string;
  spec_IPAddressType : option string;
  spec_SubnetMappings : list SubnetMapping;
  spec_SecurityGroups : list StringToken;
  spec_LoadBalancerAttributes : list LoadBalancerAttribute;
  spec_Tags : gmap string string
}.

(** ** Errors

    One constructor per [errors.Errorf] of the file, holding the values
    that the message formats, and one for an error that a collaborator
    returned. *)
Inductive error :=
| ErrConflictingScheme (explicitSchemes : gset string)
| ErrUnknownScheme (rawScheme : string)
| ErrConflictingIPAddressType (explicitIPAddressTypes : list string)
| ErrUnknownIPAddressType (rawIPAddressType : string)
| ErrInsufficientSubnets (chosenSubnetIDs : list string)
| ErrConflictingSubnets (chosen other : list string)
| ErrConflictingSecurityGroups (chosen other : list string)
| ErrConflictingAttribute (attrKey existingAttrValue attrValue : string)
| ErrConflictingTag (tagKey existingTagValue tagValue : string)
| ErrSubnetsNotFound (nameOrIDs found : list string)
| ErrSecurityGroupsNotFound (nameOrIDs found : list string)
| ErrCollaborator (msg : string).

Inductive result (A : Type) :=
| Ok (a : A)
| Err (e : error).
Arguments Ok {A} a.
Arguments Err {A} e.

#[global] Instance result_ret : MRet result := λ A a, Ok a.
#[global] Instance result_bind : MBind result := λ A B f r,
  match r with Ok a => f a | Err e => Err e end.
#[global] Instance result_fmap : FMap result := λ A B f r,
  match r with Ok a => Ok (f a) | Err e => Err e end.

Definition is_Ok {A} (r : result A) : Prop := ∃ a, r = Ok a.
Definition is_Err {A} (r : result A) : Prop := ∃ e, r = Err e.

(** A [for ... range] loop whose body may return an error. *)
Fixpoint forEach {A S} (body : S → A → result S) (s : S) (l : list A) : result S :=
  match l with
  | [] => Ok s
  | x :: l' =>
      match body s x with
      | Ok s' => forEach body s' l'
      | Err e => Err e
      end
  end.

(** ** k8s.io/apimachinery sets.String *)

Definition sets_Insert (s : gset string) (x : string) : gset string := {[x]} ∪ s.

(** [PopAny]: some element of the set and [true], or the empty string and
    [false] for the empty set. *)
Definition sets_PopAny (s : gset string) : string * bool :=
  match elements s with
  | x :: _ => (x, true)
  | [] => ("", false)
  end.

(** [List]: the elements, sorted. *)
Definition sets_List (s : gset string) : list string :=
  merge_sort String.le (elements s).

(** ** github.com/google/go-cmp *)

(** [cmp.Equal] on two string slices without options: the same strings
    at the same positions. *)
Definition cmp_Equal (x y : list string) : bool := bool_decide (x = y).

(** Modelled from the spec: [equality.IgnoreStringSliceOrder], of package
    pkg/equality, which is not part of the sources at hand. With this
    option [cmp.Equal] compares two string slices as sets: "set-equal
    (order-insensitive, duplicates irrelevant)". *)
Definition cmp_Equal_IgnoreStringSliceOrder (x y : list string) : bool :=
  bool_decide ((list_to_set x : gset string) = list_to_set y).

(** ** What the file takes from the other packages of the repository

    The constants of the packages [annotations] and [model/elbv2], the type
    [listenPortConfig] and the methods of the group identity are declared
    in files that are not at hand; the builder is parametric in them. *)
Class Packages := {
  LoadBalancerSchemeInternetFacing : string;
  LoadBalancerSchemeInternal : string;
  IPAddressTypeIPV4 : string;
  IPAddressTypeDualStack : string;
  LoadBalancerTypeApplication : string;
  IngressSuffixScheme : string;
  IngressSuffixIPAddressType : string;
  IngressSuffixSubnets : string;
  IngressSuffixSecurityGroups : string;
  IngressSuffixLoadBalancerAttributes : string;
  IngressSuffixTags : string;
  listenPortConfig : Type;
  GroupID_IsExplicit : GroupID → bool;
  GroupID_String : GroupID → string
}.

Section Builder.
Context {P : Packages}.

(** The annotation parser, an interface of the package [annotations]. A
    [Parse...Annotation] method returns whether the annotation exists and
    stores its value through a pointer: [None] is "does not exist", and
    the variable of the caller keeps its zero value. The slice parser
    gives one representation to the empty list, so that a nil slice and
    an empty one need not be told apart. *)
Record Parser := {
  ParseStringAnnotation : string → gmap string string → option string;
  ParseStringSliceAnnotation : string → gmap string string → option (list string);
  ParseStringMapAnnotation :
    string → gmap string string → result (option (gmap string string))
}.

Record SubnetsResolver := {
  DiscoverSubnets : string → result (list Subnet)
}.

Record EC2 := {
  DescribeSubnetsAsList : DescribeSubnetsInput → result (list Subnet);
  DescribeSecurityGroupsAsList :
    DescribeSecurityGroupsInput → result (list SecurityGroup)
}.

(** The fields of [defaultModelBuildTask] that the file reads. The method
    [buildManagedSecurityGroup] is defined in another file of the package;
    it is a field here. *)
Record defaultModelBuildTask := {
  clusterName : string;
  vpcID : string;
  ingGroup : Group;
  annotationParser : Parser;
  subnetsResolver : SubnetsResolver;
  ec2Client : EC2;
  defaultScheme : string;
  defaultIPAddressType : string;
  buildManagedSecurityGroup :
    gmap Z listenPortConfig → string → result ManagedSecurityGroup
}.

(** ** Calls to the collaborators

    A computation that calls the EC2 client, the subnet resolver or the
    managed security group builder returns the calls it made, in order,
    with its result. The [context.Context] argument is left out. *)
Inductive Call :=
| CallDiscoverSubnets (scheme : string)
| CallDescribeSubnets (req : DescribeSubnetsInput)
| CallDescribeSecurityGroups (req : DescribeSecurityGroupsInput)
| CallBuildManagedSecurityGroup (cfg : gmap Z listenPortConfig) (ipAddressType : string).

Definition M (A : Type) : Type := list Call * result A.

Definition calls {A} (m : M A) : list Call := m.1.
Definition outcome {A} (m : M A) : result A := m.2.

#[global] Instance M_ret : MRet M := λ A a, ([], Ok a).
#[global] Instance M_bind : MBind M := λ A B f m,
  match m.2 with
  | Ok a => (m.1 ++ (f a).1, (f a).2)
  | Err e => (m.1, Err e)
  end.

Definition pure {A} (r : result A) : M A := ([], r).
Definition throw {A} (e : error) : M A := ([], Err e).
Definition call {A} (c : Call) (r : result A) : M A := ([c], r).

(** ** The builder *)

(** Lines 75-90. *)
Definition buildLoadBalancerName (t : defaultModelBuildTask) (scheme : string) : string :=
  let uuidHash :=
    bytes_of_string (clusterName t) ++
    bytes_of_string (GroupID_String (ID (ingGroup t))) ++
    bytes_of_string scheme in
  let uuid := EncodeToString (SHA256.Sum256 uuidHash) in
  if GroupID_IsExplicit (ID (ingGroup t)) then
    let payload :=
      ReplaceAllString invalidLoadBalancerNamePattern (Name (ID (ingGroup t))) "" in
    "k8s-" +:+ truncate 17 payload +:+ "-" +:+ truncate 10 uuid
  else
    let sanitizedNamespace :=
      ReplaceAllString invalidLoadBalancerNamePattern (Namespace (ID (ingGroup t))) "" in
    let sanitizedName :=
      ReplaceAllString invalidLoadBalancerNamePattern (Name (ID (ingGroup t))) "" in
    "k8s-" +:+ truncate 8 sanitizedNamespace +:+ "-" +:+ truncate 8 sanitizedName
      +:+ "-" +:+ truncate 10 uuid.

(** Lines 93-100: the raw schemes of the members that have the annotation. *)
Definition explicitSchemes (t : defaultModelBuildTask) : gset string :=
  foldl (λ explicitSchemes ing,
           match ParseStringAnnotation (annotationParser t) IngressSuffixScheme
                   (Annotations ing) with
           | None => explicitSchemes
           | Some rawSchema => sets_Insert explicitSchemes rawSchema
           end)
        ∅ (Members (ingGroup t)).

(** Lines 92-116. *)
Definition buildLoadBalancerScheme (t : defaultModelBuildTask) : result string :=
  let explicitSchemes := explicitSchemes t in
  if decide (size explicitSchemes = 0)%nat then Ok (defaultScheme t)
  else if decide (1 < size explicitSchemes)%nat then
    Err (ErrConflictingScheme explicitSchemes)
  else
    let rawScheme := (sets_PopAny explicitSchemes).1 in
    if decide (rawScheme = LoadBalancerSchemeInternetFacing) then
      Ok LoadBalancerSchemeInternetFacing
    else if decide (rawScheme = LoadBalancerSchemeInternal) then
      Ok LoadBalancerSchemeInternal
    else Err (ErrUnknownScheme rawScheme).

(** Lines 120-127. *)
Definition explicitIPAddressTypes (t : defaultModelBuildTask) : gset string :=
  foldl (λ explicitIPAddressTypes ing,
           match ParseStringAnnotation (annotationParser t) IngressSuffixIPAddressType
                   (Annotations ing) with
           | None => explicitIPAddressTypes
           | Some rawIPAddressType => sets_Insert explicitIPAddressTypes rawIPAddressType
           end)
        ∅ (Members (ingGroup t)).

(** Lines 119-143. *)
Definition buildLoadBalancerIPAddressType (t : defaultModelBuildTask) : result string :=
  let explicitIPAddressTypes := explicitIPAddressTypes t in
  if decide (size explicitIPAddressTypes = 0)%nat then Ok (defaultIPAddressType t)
  else if decide (1 < size explicitIPAddressTypes)%nat then
    Err (ErrConflictingIPAddressType (sets_List explicitIPAddressTypes))
  else
    let rawIPAddressType := (sets_PopAny explicitIPAddressTypes).1 in
    if decide (rawIPAddressType = IPAddressTypeIPV4) then Ok IPAddressTypeIPV4
    else if decide (rawIPAddressType = IPAddressTypeDualStack) then
      Ok IPAddressTypeDualStack
    else Err (ErrUnknownIPAddressType rawIPAddressType).

(** Lines 360-368. *)
Definition buildLoadBalancerSubnetMappingsWithSubnetIDs
    (subnetIDs : list string) : list SubnetMapping :=
  foldl (λ subnetMappings subnetID, subnetMappings ++ [ {| SubnetID := subnetID |} ])
        [] subnetIDs.

(** Lines 263-269 and 313-319: the tokens with the identifier prefix and
    the others, each in the order of the list. *)
Definition splitNameOrIDs (idPrefix : string) (nameOrIDs : list string)
    : list string * list string :=
  foldl (λ '(ids, names) nameOrID,
           if HasPrefix nameOrID idPrefix then (ids ++ [nameOrID], names)
           else (ids, names ++ [nameOrID]))
        ([], []) nameOrIDs.

(** Lines 260-308. *)
Definition resolveSubnetIDsViaNameOrIDSlice (t : defaultModelBuildTask)
    (subnetNameOrIDs : list string) : M (list string) :=
  let '(subnetIDs, subnetNames) := splitNameOrIDs "subnet-" subnetNameOrIDs in
  let resolvedSubnets := [] in
  resolvedSubnets ←
    (if decide (0 < length subnetIDs)%nat then
       let req := {| SubnetIds := awssdk_StringSlice subnetIDs; SubnetFilters := [] |} in
       subnets ← call (CallDescribeSubnets req) (DescribeSubnetsAsList (ec2Client t) req);
       mret (resolvedSubnets ++ subnets)
     else mret resolvedSubnets);
  resolvedSubnets ←
    (if decide (0 < length subnetNames)%nat then
       let req :=
         {| SubnetIds := [];
            SubnetFilters :=
              [ {| Filter_Name := awssdk_String "tag:Name";
                   Filter_Values := awssdk_StringSlice subnetNames |};
                {| Filter_Name := awssdk_String "vpc-id";
                   Filter_Values := awssdk_StringSlice [vpcID t] |} ] |} in
       subnets ← call (CallDescribeSubnets req) (DescribeSubnetsAsList (ec2Client t) req);
       mret (resolvedSubnets ++ subnets)
     else mret resolvedSubnets);
  let resolvedSubnetIDs :=
    foldl (λ ids subnet, ids ++ [awssdk_StringValue (SubnetId subnet)]) [] resolvedSubnets in
  if decide (length resolvedSubnetIDs ≠ length subnetNameOrIDs) then
    throw (ErrSubnetsNotFound subnetNameOrIDs resolvedSubnetIDs)
  else mret resolvedSubnetIDs.

(** Lines 310-358. *)
Definition resolveSecurityGroupIDsViaNameOrIDSlice (t : defaultModelBuildTask)
    (sgNameOrIDs : list string) : M (list string) :=
  let '(sgIDs, sgNames) := splitNameOrIDs "sg-" sgNameOrIDs in
  let resolvedSGs := [] in
  resolvedSGs ←
    (if decide (0 < length sgIDs)%nat then
       let req := {| GroupIds := awssdk_StringSlice sgIDs; SecurityGroupFilters := [] |} in
       sgs ← call (CallDescribeSecurityGroups req)
                  (DescribeSecurityGroupsAsList (ec2Client t) req);
       mret (resolvedSGs ++ sgs)
     else mret resolvedSGs);
  resolvedSGs ←
    (if decide (0 < length sgNames)%nat then
       let req :=
         {| GroupIds := [];
            SecurityGroupFilters :=
              [ {| Filter_Name := awssdk_String "tag:Name";
                   Filter_Values := awssdk_StringSlice sgNames |};
                {| Filter_Name := awssdk_String "vpc-id";
                   Filter_Values := awssdk_StringSlice [vpcID t] |} ] |} in
       sgs ← call (CallDescribeSecurityGroups req)
                  (DescribeSecurityGroupsAsList (ec2Client t) req);
       mret (resolvedSGs ++ sgs)
     else mret resolvedSGs);
  let resolvedSGIDs :=
    foldl (λ ids sg, ids ++ [awssdk_StringValue (GroupId sg)]) [] resolvedSGs in
  if decide (length resolvedSGIDs ≠ length sgNameOrIDs) then
    throw (ErrSecurityGroupsNotFound sgNameOrIDs resolvedSGIDs)
  else mret resolvedSGIDs.

(** Lines 146-153. *)
Definition explicitSubnetNameOrIDsList (t : defaultModelBuildTask) : list (list string) :=
  foldl (λ explicitSubnetNameOrIDsList ing,
           match ParseStringSliceAnnotation (annotationParser t) IngressSuffixSubnets
                   (Annotations ing) with
           | None => explicitSubnetNameOrIDsList
           | Some rawSubnetNameOrIDs => explicitSubnetNameOrIDsList ++ [rawSubnetNameOrIDs]
           end)
        [] (Members (ingGroup t)).

(** Lines 169-175, reached with a list that is not empty: the first list
    is chosen, and every later one is compared with it. *)
Definition chooseSubnetNameOrIDs (explicitSubnetNameOrIDsList : list (list string))
    : result (list string) :=
  let chosenSubnetNameOrIDs := explicitSubnetNameOrIDsList !!! 0%nat in
  _ ← forEach (λ _ subnetNameOrIDs,
                 if negb (cmp_Equal_IgnoreStringSliceOrder chosenSubnetNameOrIDs subnetNameOrIDs)
                 then Err (ErrConflictingSubnets chosenSubnetNameOrIDs subnetNameOrIDs)
                 else Ok ())
              () (drop 1 explicitSubnetNameOrIDsList);
  Ok chosenSubnetNameOrIDs.

(** Lines 145-181. *)
Definition buildLoadBalancerSubnetMappings (t : defaultModelBuildTask) (scheme : string)
    : M (list SubnetMapping) :=
  let explicitSubnetNameOrIDsList := explicitSubnetNameOrIDsList t in
  if decide (length explicitSubnetNameOrIDsList = 0)%nat then
    chosenSubnets ← call (CallDiscoverSubnets scheme)
                         (DiscoverSubnets (subnetsResolver t) scheme);
    let chosenSubnetIDs :=
      foldl (λ ids subnet, ids ++ [awssdk_StringValue (SubnetId subnet)]) [] chosenSubnets in
    if decide (length chosenSubnetIDs < 2)%nat then
      throw (ErrInsufficientSubnets chosenSubnetIDs)
    else mret (buildLoadBalancerSubnetMappingsWithSubnetIDs chosenSubnetIDs)
  else
    chosenSubnetNameOrIDs ← pure (chooseSubnetNameOrIDs explicitSubnetNameOrIDsList);
    chosenSubnetIDs ← resolveSubnetIDsViaNameOrIDSlice t chosenSubnetNameOrIDs;
    mret (buildLoadBalancerSubnetMappingsWithSubnetIDs chosenSubnetIDs).

(** Lines 184-191. *)
Definition explicitSGNameOrIDsList (t : defaultModelBuildTask) : list (list string) :=
  foldl (λ explicitSGNameOrIDsList ing,
           match ParseStringSliceAnnotation (annotationParser t) IngressSuffixSecurityGroups
                   (Annotations ing) with
           | None => explicitSGNameOrIDsList
           | Some rawSGNameOrIDs => explicitSGNameOrIDsList ++ [rawSGNameOrIDs]
           end)
        [] (Members (ingGroup t)).

(** Lines 200-206, reached with a list that is not empty. *)
Definition chooseSGNameOrIDs (explicitSGNameOrIDsList : list (list string))
    : result (list string) :=
  let chosenSGNameOrIDs := explicitSGNameOrIDsList !!! 0%nat in
  _ ← forEach (λ _ sgNameOrIDs,
                 if negb (cmp_Equal chosenSGNameOrIDs sgNameOrIDs)
                 then Err (ErrConflictingSecurityGroups chosenSGNameOrIDs sgNameOrIDs)
                 else Ok ())
              () (drop 1 explicitSGNameOrIDsList);
  Ok chosenSGNameOrIDs.

(** Lines 183-216. *)
Definition buildLoadBalancerSecurityGroups (t : defaultModelBuildTask)
    (listenPortConfigByPort : gmap Z listenPortConfig) (ipAddressType : string)
    : M (list StringToken) :=
  let explicitSGNameOrIDsList := explicitSGNameOrIDsList t in
  if decide (length explicitSGNameOrIDsList = 0)%nat then
    sg ← call (CallBuildManagedSecurityGroup listenPortConfigByPort ipAddressType)
              (buildManagedSecurityGroup t listenPortConfigByPort ipAddressType);
    mret [sg_GroupID sg]
  else
    chosenSGNameOrIDs ← pure (chooseSGNameOrIDs explicitSGNameOrIDsList);
    chosenSGIDs ← resolveSecurityGroupIDsViaNameOrIDSlice t chosenSGNameOrIDs;
    let sgIDTokens :=
      foldl (λ sgIDTokens sgID, sgIDTokens ++ [LiteralStringToken sgID]) [] chosenSGIDs in
    mret sgIDTokens.

(** Lines 225-230 and 249-254: the entries of one member are added to the
    merged map; an entry whose key is there with another value is a
    conflict. Go ranges over a map in an order it does not specify; the
    entries are taken here in the order of [map_to_list]. *)
Definition mergeEntries (conflict : string → string → string → error)
    (merged : gmap string string) (raw : gmap string string)
    : result (gmap string string) :=
  forEach (λ merged '(key, value),
             match merged !! key with
             | Some existingValue =>
                 if decide (existingValue ≠ value) then Err (conflict key existingValue value)
                 else Ok (<[key := value]> merged)
             | None => Ok (<[key := value]> merged)
             end)
          merged (map_to_list raw).

(** Lines 219-231. *)
Definition mergedAttributes (t : defaultModelBuildTask) : result (gmap string string) :=
  forEach (λ mergedAttributes ing,
             rawAttributes ← ParseStringMapAnnotation (annotationParser t)
                               IngressSuffixLoadBalancerAttributes (Annotations ing);
             mergeEntries ErrConflictingAttribute mergedAttributes (default ∅ rawAttributes))
          ∅ (Members (ingGroup t)).

(** Lines 218-240. *)
Definition buildLoadBalancerAttributes (t : defaultModelBuildTask)
    : result (list LoadBalancerAttribute) :=
  mergedAttributes ← mergedAttributes t;
  Ok (foldl (λ attributes '(attrKey, attrValue),
               attributes ++ [ {| Key := attrKey; Value := attrValue |} ])
            [] (map_to_list mergedAttributes)).

(** Lines 242-257. *)
Definition buildLoadBalancerTags (t : defaultModelBuildTask) : result (gmap string string) :=
  forEach (λ mergedTags ing,
             rawTags ← ParseStringMapAnnotation (annotationParser t)
                         IngressSuffixTags (Annotations ing);
             mergeEntries ErrConflictingTag mergedTags (default ∅ rawTags))
          ∅ (Members (ingGroup t)).

(** Lines 35-71. *)
Definition buildLoadBalancerSpec (t : defaultModelBuildTask)
    (listenPortConfigByPort : gmap Z listenPortConfig) : M LoadBalancerSpec :=
  scheme ← pure (buildLoadBalancerScheme t);
  ipAddressType ← pure (buildLoadBalancerIPAddressType t);
  subnetMappings ← buildLoadBalancerSubnetMappings t scheme;
  securityGroups ← buildLoadBalancerSecurityGroups t listenPortConfigByPort ipAddressType;
  loadBalancerAttributes ← pure (buildLoadBalancerAttributes t);
  tags ← pure (buildLoadBalancerTags t);
  let name := buildLoadBalancerName t scheme in
  mret {| spec_Name := name;
          spec_Type := LoadBalancerTypeApplication;
          spec_Scheme := Some scheme;
          spec_IPAddressType := Some ipAddressType;
          spec_SubnetMappings := subnetMappings;
          spec_SecurityGroups := securityGroups;
          spec_LoadBalancerAttributes := loadBalancerAttributes;
          spec_Tags := tags |}.

End Builder.

(** ** A concrete instance, on which the builder runs

    The values that the controller gives to the constants, a group
    identity that is explicit when it has no namespace, a parser that
    reads comma-separated lists and [key=value] pairs under the prefix
    [alb.ingress.kubernetes.io/], and an EC2 client that answers from a
    table of subnets and of security groups. *)
Module Sample.

Definition packages : Packages := {|
  LoadBalancerSchemeInternetFacing := "internet-facing";
  LoadBalancerSchemeInternal := "internal";
  IPAddressTypeIPV4 := "ipv4";
  IPAddressTypeDualStack := "dualstack";
  LoadBalancerTypeApplication := "application";
  IngressSuffixScheme := "scheme";
  IngressSuffixIPAddressType := "ip-address-type";
  IngressSuffixSubnets := "subnets";
  IngressSuffixSecurityGroups := "security-groups";
  IngressSuffixLoadBalancerAttributes := "load-balancer-attributes";
  IngressSuffixTags := "tags";
  listenPortConfig := unit;
  GroupID_IsExplicit := λ id, bool_decide (Namespace id = "");
  GroupID_String := λ id,
    if bool_decide (Namespace id = "") then Name id
    else Namespace id +:+ "/" +:+ Name id
|}.

Fixpoint splitOn (sep : ascii) (s : string) : list string :=
  match s with
  | EmptyString => [EmptyString]
  | String c rest =>
      if decide (c = sep) then EmptyString :: splitOn sep rest
      else match splitOn sep rest with
           | w :: ws => String c w :: ws
           | [] => [String c EmptyString]
           end
  end.

Definition splitCommaSeparatedString (s : string) : list string :=
  filter (λ part, part ≠ "") (splitOn "," s).

Definition parseKeyValue (merged : gmap string string) (part : string)
    : result (gmap string string) :=
  match splitOn "=" part with
  | [k; v] => Ok (<[k := v]> merged)
  | _ => Err (ErrCollaborator ("failed to parse stringMap annotation: " +:+ part))
  end.

Definition annotation (suffix : string) (annotations : gmap string string) : option string :=
  annotations !! ("alb.ingress.kubernetes.io/" +:+ suffix).

Definition parser : Parser := {|
  ParseStringAnnotation := annotation;
  ParseStringSliceAnnotation := λ suffix annotations,
    splitCommaSeparatedString <$> annotation suffix annotations;
  ParseStringMapAnnotation := λ suffix annotations,
    match annotation suffix annotations with
    | None => Ok None
    | Some raw => Some <$> forEach parseKeyValue ∅ (splitCommaSeparatedString raw)
    end
|}.

(** A subnet or a security group of the account: identifier, [Name]
    tag, VPC and availability zone. *)
Record resource := { res_id : string; res_name : string; res_vpc : string; res_az : string }.

Definition values (f : Filter) : list string := awssdk_StringValue <$> Filter_Values f.

Definition matches (r : resource) (f : Filter) : bool :=
  if decide (Filter_Name f = Some "tag:Name") then bool_decide (res_name r ∈ values f)
  else if decide (Filter_Name f = Some "vpc-id") then bool_decide (res_vpc r ∈ values f)
  else false.

Definition describe (table : list resource) (ids : list (option string))
    (filters : list Filter) : list resource :=
  filter (λ r, (ids = [] ∨ Some (res_id r) ∈ ids) ∧ forallb (matches r) filters) table.

Definition subnet (r : resource) : Subnet :=
  {| SubnetId := Some (res_id r); AvailabilityZone := Some (res_az r) |}.

Definition ec2 (subnets sgs : list resource) : EC2 := {|
  DescribeSubnetsAsList := λ req,
    Ok (subnet <$> describe subnets (SubnetIds req) (SubnetFilters req));
  DescribeSecurityGroupsAsList := λ req,
    Ok ((λ r, {| GroupId := Some (res_id r) |})
          <$> describe sgs (GroupIds req) (SecurityGroupFilters req))
|}.

Definition subnets : list resource :=
  [ {| res_id := "subnet-1"; res_name := "public-a"; res_vpc := "vpc-1"; res_az := "us-west-2a" |};
    {| res_id := "subnet-2"; res_name := "public-b"; res_vpc := "vpc-1"; res_az := "us-west-2b" |};
    {| res_id := "subnet-3"; res_name := "public-a2"; res_vpc := "vpc-1"; res_az := "us-west-2a" |} ].

Definition sgs : list resource :=
  [ {| res_id := "sg-123"; res_name := "web"; res_vpc := "vpc-1"; res_az := "" |};
    {| res_id := "sg-456"; res_name := "my-sg"; res_vpc := "vpc-1"; res_az := "" |} ].

Definition ingress (annotations : list (string * string)) : Ingress :=
  {| Annotations :=
       list_to_map (prod_map (λ k, "alb.ingress.kubernetes.io/" +:+ k) id <$> annotations) |}.

(** A task on the sample account: [discovered] is what subnet discovery
    returns, the managed security group has the token of the resource
    [ManagedLBSecurityGroup]. *)
Definition task (id : GroupID) (members : list Ingress) (discovered : list resource)
    : defaultModelBuildTask (P := packages) := {|
  clusterName := "my-cluster";
  vpcID := "vpc-1";
  ingGroup := {| ID := id; Members := members |};
  annotationParser := parser;
  subnetsResolver := {| DiscoverSubnets := λ _, Ok (subnet <$> discovered) |};
  ec2Client := ec2 subnets sgs;
  defaultScheme := "internal";
  defaultIPAddressType := "ipv4";
  buildManagedSecurityGroup := λ _ _,
    Ok {| sg_GroupID := ResourceFieldStringToken "ManagedLBSecurityGroup" "status/groupID" |}
|}.

Definition awesome : GroupID := {| Namespace := ""; Name := "awesome-group" |}.

End Sample.


(** ** What each member specifies

    The values that the statements below speak of: for a field, the raw
    values of the members that have its annotation, in the order of the
    members. *)
Section Specified.
Context {P : Packages}.

Definition specifiedStrings (t : defaultModelBuildTask) (suffix : string) : list string :=
  omap (λ ing, ParseStringAnnotation (annotationParser t) suffix (Annotations ing))
       (Members (ingGroup t)).

Definition specifiedLists (t : defaultModelBuildTask) (suffix : string) : list (list string) :=
  omap (λ ing, ParseStringSliceAnnotation (annotationParser t) suffix (Annotations ing))
       (Members (ingGroup t)).

(** The two lookups of a resolver (section 4.3 of the design, steps 2 and
    3): the tokens that are identifiers are described by identifier, the
    others by their [Name] tag within the VPC of the task. *)
Definition subnetsByIDs (ids : list string) : DescribeSubnetsInput :=
  {| SubnetIds := awssdk_StringSlice ids; SubnetFilters := [] |}.

Definition subnetsByNames (vpc : string) (names : list string) : DescribeSubnetsInput :=
  {| SubnetIds := [];
     SubnetFilters :=
       [ {| Filter_Name := Some "tag:Name"; Filter_Values := awssdk_StringSlice names |};
         {| Filter_Name := Some "vpc-id"; Filter_Values := awssdk_StringSlice [vpc] |} ] |}.

Definition securityGroupsByIDs (ids : list string) : DescribeSecurityGroupsInput :=
  {| GroupIds := awssdk_StringSlice ids; SecurityGroupFilters := [] |}.

Definition securityGroupsByNames (vpc : string) (names : list string)
    : DescribeSecurityGroupsInput :=
  {| GroupIds := [];
     SecurityGroupFilters :=
       [ {| Filter_Name := Some "tag:Name"; Filter_Values := awssdk_StringSlice names |};
         {| Filter_Name := Some "vpc-id"; Filter_Values := awssdk_StringSlice [vpc] |} ] |}.

Definition isID (idPrefix token : string) : Prop := HasPrefix token idPrefix = true.

#[global] Instance isID_dec (idPrefix token : string) : Decision (isID idPrefix token) :=
  decide (HasPrefix token idPrefix = true).

(** The entries that the batched lookups return for a list of tokens
    (steps 1 to 4): the answer to the lookup by identifier, then the
    answer to the lookup by name; a lookup with nothing to ask is not
    made and contributes nothing. *)
Definition foundSubnets (t : defaultModelBuildTask) (tokens : list string)
    : result (list Subnet) :=
  let ids := filter (isID "subnet-") tokens in
  let names := filter (λ token, ¬ isID "subnet-" token) tokens in
  byID ← (if decide (ids = []) then Ok []
          else DescribeSubnetsAsList (ec2Client t) (subnetsByIDs ids));
  byName ← (if decide (names = []) then Ok []
            else DescribeSubnetsAsList (ec2Client t) (subnetsByNames (vpcID t) names));
  Ok (byID ++ byName).

Definition foundSecurityGroups (t : defaultModelBuildTask) (tokens : list string)
    : result (list SecurityGroup) :=
  let ids := filter (isID "sg-") tokens in
  let names := filter (λ token, ¬ isID "sg-" token) tokens in
  byID ← (if decide (ids = []) then Ok []
          else DescribeSecurityGroupsAsList (ec2Client t) (securityGroupsByIDs ids));
  byName ← (if decide (names = []) then Ok []
            else DescribeSecurityGroupsAsList (ec2Client t)
                   (securityGroupsByNames (vpcID t) names));
  Ok (byID ++ byName).

Definition subnetIDs (subnets : list Subnet) : list string :=
  (λ subnet, awssdk_StringValue (SubnetId subnet)) <$> subnets.

Definition securityGroupIDs (sgs : list SecurityGroup) : list string :=
  (λ sg, awssdk_StringValue (GroupId sg)) <$> sgs.

(** Two lists that hold the same strings, whatever the order and the
    number of occurrences. *)
Definition set_equal (x y : list string) : Prop := ∀ s, s ∈ x ↔ s ∈ y.

(** The shape that the two resolvers share: at most two lookups, then the
    comparison of the number of entries with the number of tokens. *)
Definition resolver {A} (tokens ids names : list string) (c1 c2 : Call)
    (r1 r2 : result (list A)) (getID : A → string)
    (notFound : list string → list string → error) : M (list string) :=
  resolved ←
    (if decide (0 < length ids)%nat then x ← call c1 r1; mret ([] ++ x) else mret []);
  resolved ←
    (if decide (0 < length names)%nat then x ← call c2 r2; mret (resolved ++ x)
     else mret resolved);
  let resolvedIDs := foldl (λ acc a, acc ++ [getID a]) [] resolved in
  if decide (length resolvedIDs ≠ length tokens) then throw (notFound tokens resolvedIDs)
  else mret resolvedIDs.

Definition found {A} (ids names : list string) (r1 r2 : result (list A))
    : result (list A) :=
  byID ← (if decide (ids = []) then Ok [] else r1);
  byName ← (if decide (names = []) then Ok [] else r2);
  Ok (byID ++ byName).

(** The name generator as the design states it (section 4.2): the digest
    of the three inputs one after the other, in hexadecimal; the
    sanitized form of a string, which keeps its alphanumeric characters;
    the composed name. *)
Definition chars (s : string) : list ascii := list_ascii_of_string s.

Definition hexdigest (cluster id scheme : string) : string :=
  EncodeToString (SHA256.Sum256 (bytes_of_string (cluster +:+ id +:+ scheme))).

Definition sanitize (s : string) : string :=
  string_of_list_ascii (filter (λ c, alnum c = true) (chars s)).

Definition generatedName (cluster : string) (id : GroupID) (scheme : string) : string :=
  let digest := hexdigest cluster (GroupID_String id) scheme in
  if GroupID_IsExplicit id then
    "k8s-" +:+ truncate 17 (sanitize (Name id)) +:+ "-" +:+ truncate 10 digest
  else
    "k8s-" +:+ truncate 8 (sanitize (Namespace id)) +:+ "-"
      +:+ truncate 8 (sanitize (Name id)) +:+ "-" +:+ truncate 10 digest.

(** A character of the name is alphanumeric or the separator. *)
Definition nameChar (c : ascii) : Prop := alnum c = true ∨ c = "-"%char.

(** The maps that the members specify under [suffix], in the order of the
    members, when every annotation parses: a member without the
    annotation contributes the empty map. *)
Definition specifiesMaps (t : defaultModelBuildTask) (suffix : string)
    (maps : list (gmap string string)) : Prop :=
  Forall2 (λ ing m, ∃ raw,
             ParseStringMapAnnotation (annotationParser t) suffix (Annotations ing) = Ok raw
             ∧ m = default ∅ raw)
          (Members (ingGroup t)) maps.

(** No key has two values in the maps. *)
Definition consistent (maps : list (gmap string string)) : Prop :=
  ∀ m1 m2 k v1 v2,
    m1 ∈ maps → m2 ∈ maps → m1 !! k = Some v1 → m2 !! k = Some v2 → v1 = v2.

(** Some map gives the value [v] to the key [k]. *)
Definition given (maps : list (gmap string string)) (k v : string) : Prop :=
  ∃ m, m ∈ maps ∧ m !! k = Some v.

(** A field evaluation of [buildLoadBalancerSpec] fails with [e]: the
    evaluations are made in the order scheme, address family, subnets,
    security groups, attributes, tags; the subnets are built for the
    scheme that was built, the security groups for the address family that
    was built, and an evaluation is made when those before it succeeded. *)
Inductive fieldFailure (t : defaultModelBuildTask) (cfg : gmap Z listenPortConfig)
    : error → Prop :=
| scheme_fails e :
    buildLoadBalancerScheme t = Err e → fieldFailure t cfg e
| ipAddressType_fails scheme e :
    buildLoadBalancerScheme t = Ok scheme →
    buildLoadBalancerIPAddressType t = Err e → fieldFailure t cfg e
| subnetMappings_fail scheme ipAddressType e :
    buildLoadBalancerScheme t = Ok scheme →
    buildLoadBalancerIPAddressType t = Ok ipAddressType →
    outcome (buildLoadBalancerSubnetMappings t scheme) = Err e → fieldFailure t cfg e
| securityGroups_fail scheme ipAddressType subnetMappings e :
    buildLoadBalancerScheme t = Ok scheme →
    buildLoadBalancerIPAddressType t = Ok ipAddressType →
    outcome (buildLoadBalancerSubnetMappings t scheme) = Ok subnetMappings →
    outcome (buildLoadBalancerSecurityGroups t cfg ipAddressType) = Err e →
    fieldFailure t cfg e
| attributes_fail scheme ipAddressType subnetMappings securityGroups e :
    buildLoadBalancerScheme t = Ok scheme →
    buildLoadBalancerIPAddressType t = Ok ipAddressType →
    outcome (buildLoadBalancerSubnetMappings t scheme) = Ok subnetMappings →
    outcome (buildLoadBalancerSecurityGroups t cfg ipAddressType) = Ok securityGroups →
    buildLoadBalancerAttributes t = Err e → fieldFailure t cfg e
| tags_fail scheme ipAddressType subnetMappings securityGroups attributes e :
    buildLoadBalancerScheme t = Ok scheme →
    buildLoadBalancerIPAddressType t = Ok ipAddressType →
    outcome (buildLoadBalancerSubnetMappings t scheme) = Ok subnetMappings →
    outcome (buildLoadBalancerSecurityGroups t cfg ipAddressType) = Ok securityGroups →
    buildLoadBalancerAttributes t = Ok attributes →
    buildLoadBalancerTags t = Err e → fieldFailure t cfg e.

(** Every field evaluation succeeds, and [spec] holds their values. *)
Definition allFieldsBuilt (t : defaultModelBuildTask) (cfg : gmap Z listenPortConfig)
    (spec : LoadBalancerSpec) : Prop :=
  ∃ scheme ipAddressType subnetMappings securityGroups attributes tags,
    buildLoadBalancerScheme t = Ok scheme
    ∧ buildLoadBalancerIPAddressType t = Ok ipAddressType
    ∧ outcome (buildLoadBalancerSubnetMappings t scheme) = Ok subnetMappings
    ∧ outcome (buildLoadBalancerSecurityGroups t cfg ipAddressType) = Ok securityGroups
    ∧ buildLoadBalancerAttributes t = Ok attributes
    ∧ buildLoadBalancerTags t = Ok tags
    ∧ spec = {| spec_Name := buildLoadBalancerName t scheme;
                spec_Type := LoadBalancerTypeApplication;
                spec_Scheme := Some scheme;
                spec_IPAddressType := Some ipAddressType;
                spec_SubnetMappings := subnetMappings;
                spec_SecurityGroups := securityGroups;
                spec_LoadBalancerAttributes := attributes;
                spec_Tags := tags |}.

End Specified.

(** A task of the sample account whose EC2 client refuses every request. *)
Module Outage.

Definition refused : error := ErrCollaborator "UnauthorizedOperation".

Definition ec2 : EC2 := {|
  DescribeSubnetsAsList := λ _, Err refused;
  DescribeSecurityGroupsAsList := λ _, Err refused
|}.

Definition task (members : list Ingress) : defaultModelBuildTask (P := Sample.packages) := {|
  clusterName := "my-cluster";
  vpcID := "vpc-1";
  ingGroup := {| ID := Sample.awesome; Members := members |};
  annotationParser := Sample.parser;
  subnetsResolver := {| DiscoverSubnets := λ _, Err refused |};
  ec2Client := ec2;
  defaultScheme := "internal";
  defaultIPAddressType := "ipv4";
  buildManagedSecurityGroup := λ _ _, Err refused
|}.

End Outage.

(** ** Test vectors of the hash *)

Example sha_abc :
  EncodeToString (SHA256.Sum256 (bytes_of_string "abc")) =
  "ba7816bf8f01cfea414140de5dae2223b00361a396177a9cb410ff61f20015ad"%string.
Proof. vm_compute. reflexivity. Qed.

Example sha_empty :
  EncodeToString (SHA256.Sum256 (bytes_of_string "")) =
  "e3b0c44298fc1c149afbf4c8996fb92427ae41e4649b934ca495991b7852b855"%string.
Proof. vm_compute. reflexivity. Qed.

Example sha_two_blocks :
  EncodeToString (SHA256.Sum256 (bytes_of_string
    "aaaaaaaaaaaaaaaaaaaaaaaaaaaaaaaaaaaaaaaaaaaaaaaaaaaaaaaaaaaaaaaaaaaaaaaaaaaaaaaaaaaaaaaaaaaaaaaaaaaa")) =
  "2816597888e4a0d3a36b82b83316ab32680eb8f00f8cd3b904d681246d285a0e"%string.
Proof. vm_compute. reflexivity. Qed.

Example sha_constants :
  length SHA256.primes = 64%nat
  ∧ take 2 SHA256.K = [0x428a2f98; 0x71374491]
  ∧ last SHA256.K = Some 0xc67178f2
  ∧ last SHA256.H0 = Some 0x5be0cd19.
Proof. vm_compute. done. Qed.

(** ** Loops *)

Lemma foldl_snoc {A B} (f : A → B) (l : list A) (acc : list B) :
  foldl (λ acc x, acc ++ [f x]) acc l = acc ++ (f <$> l).
Proof.
  revert acc. induction l as [|x l IH]; intros acc; simpl.
  - by rewrite app_nil_r.
  - by rewrite IH, <- app_assoc.
Qed.

Lemma foldl_collect {A B} (f : A → option B) (l : list A) (acc : list B) :
  foldl (λ acc x, match f x with None => acc | Some y => acc ++ [y] end) acc l
  = acc ++ omap f l.
Proof.
  revert acc. induction l as [|x l IH]; intros acc; simpl.
  - by rewrite app_nil_r.
  - rewrite IH. destruct (f x); [|done]. by rewrite <- app_assoc.
Qed.

Lemma foldl_sets_Insert {A} (f : A → option string) (l : list A) (acc : gset string) :
  foldl (λ acc x, match f x with None => acc | Some y => sets_Insert acc y end) acc l
  = acc ∪ list_to_set (omap f l).
Proof.
  revert acc. induction l as [|x l IH]; intros acc; simpl.
  - set_solver.
  - rewrite IH. destruct (f x); simpl; unfold sets_Insert; set_solver.
Qed.


(** ** sets.String *)

Lemma gset_size_two (X : gset string) (x y : string) :
  x ∈ X → y ∈ X → x ≠ y → (1 < size X)%nat.
Proof.
  intros Hx Hy Hne.
  assert (Hsub : ({[x]} ∪ {[y]} : gset string) ⊆ X) by set_solver.
  apply subseteq_size in Hsub.
  rewrite size_union in Hsub by set_solver.
  rewrite !size_singleton in Hsub. lia.
Qed.

Lemma gset_all_equal (X : gset string) (raw : string) :
  raw ∈ X → (∀ x, x ∈ X → x = raw) → X = {[raw]}.
Proof. intros Hin Hall. apply set_eq. intros x. set_solver. Qed.

Lemma sets_PopAny_singleton (raw : string) : sets_PopAny {[raw]} = (raw, true).
Proof. unfold sets_PopAny. by rewrite elements_singleton. Qed.

Lemma sets_List_elem_of (X : gset string) (x : string) : x ∈ sets_List X ↔ x ∈ X.
Proof.
  unfold sets_List. rewrite merge_sort_Permutation. apply elem_of_elements.
Qed.

Lemma sets_List_NoDup (X : gset string) : NoDup (sets_List X).
Proof.
  unfold sets_List. rewrite merge_sort_Permutation. apply NoDup_elements.
Qed.

Section Single.
Context {P : Packages}.

Lemma explicitSchemes_specified (t : defaultModelBuildTask) :
  explicitSchemes t = list_to_set (specifiedStrings t IngressSuffixScheme).
Proof.
  unfold explicitSchemes, specifiedStrings.
  rewrite (foldl_sets_Insert
    (λ ing, ParseStringAnnotation (annotationParser t) IngressSuffixScheme (Annotations ing))).
  set_solver.
Qed.

Lemma explicitIPAddressTypes_specified (t : defaultModelBuildTask) :
  explicitIPAddressTypes t = list_to_set (specifiedStrings t IngressSuffixIPAddressType).
Proof.
  unfold explicitIPAddressTypes, specifiedStrings.
  rewrite (foldl_sets_Insert
    (λ ing, ParseStringAnnotation (annotationParser t) IngressSuffixIPAddressType
              (Annotations ing))).
  set_solver.
Qed.

End Single.

(** ** Single-valued fields: scheme and address family *)

Lemma list_to_set_nil_inv (l : list string) : (list_to_set l : gset string) = ∅ → l = [].
Proof. destruct l as [|x l]; [done|]. set_solver. Qed.

Lemma scheme_default `{P : Packages} (t : defaultModelBuildTask) :
  specifiedStrings t IngressSuffixScheme = [] →
  buildLoadBalancerScheme t = Ok (defaultScheme t).
Proof.
  intros Hnil. unfold buildLoadBalancerScheme.
  rewrite explicitSchemes_specified, Hnil, list_to_set_nil, size_empty. done.
Qed.

Lemma scheme_single `{P : Packages} (t : defaultModelBuildTask) (raw : string) :
  raw ∈ specifiedStrings t IngressSuffixScheme →
  (∀ x, x ∈ specifiedStrings t IngressSuffixScheme → x = raw) →
  buildLoadBalancerScheme t =
    if decide (raw = LoadBalancerSchemeInternetFacing) then Ok LoadBalancerSchemeInternetFacing
    else if decide (raw = LoadBalancerSchemeInternal) then Ok LoadBalancerSchemeInternal
    else Err (ErrUnknownScheme raw).
Proof.
  intros Hin Hall. unfold buildLoadBalancerScheme.
  rewrite explicitSchemes_specified.
  rewrite (gset_all_equal _ raw) by set_solver.
  rewrite size_singleton, sets_PopAny_singleton. done.
Qed.

Lemma scheme_conflict `{P : Packages} (t : defaultModelBuildTask) (x y : string) :
  x ∈ specifiedStrings t IngressSuffixScheme →
  y ∈ specifiedStrings t IngressSuffixScheme →
  x ≠ y →
  buildLoadBalancerScheme t =
    Err (ErrConflictingScheme (list_to_set (specifiedStrings t IngressSuffixScheme))).
Proof.
  intros Hx Hy Hne. unfold buildLoadBalancerScheme.
  rewrite explicitSchemes_specified.
  assert (Hsize : (1 < size (list_to_set (specifiedStrings t IngressSuffixScheme)
                              : gset string))%nat).
  { apply (gset_size_two _ x y); set_solver. }
  rewrite decide_False by lia. by rewrite decide_True.
Qed.

Lemma ip_default `{P : Packages} (t : defaultModelBuildTask) :
  specifiedStrings t IngressSuffixIPAddressType = [] →
  buildLoadBalancerIPAddressType t = Ok (defaultIPAddressType t).
Proof.
  intros Hnil. unfold buildLoadBalancerIPAddressType.
  rewrite explicitIPAddressTypes_specified, Hnil, list_to_set_nil, size_empty. done.
Qed.

Lemma ip_single `{P : Packages} (t : defaultModelBuildTask) (raw : string) :
  raw ∈ specifiedStrings t IngressSuffixIPAddressType →
  (∀ x, x ∈ specifiedStrings t IngressSuffixIPAddressType → x = raw) →
  buildLoadBalancerIPAddressType t =
    if decide (raw = IPAddressTypeIPV4) then Ok IPAddressTypeIPV4
    else if decide (raw = IPAddressTypeDualStack) then Ok IPAddressTypeDualStack
    else Err (ErrUnknownIPAddressType raw).
Proof.
  intros Hin Hall. unfold buildLoadBalancerIPAddressType.
  rewrite explicitIPAddressTypes_specified.
  rewrite (gset_all_equal _ raw) by set_solver.
  rewrite size_singleton, sets_PopAny_singleton. done.
Qed.

Lemma ip_conflict `{P : Packages} (t : defaultModelBuildTask) (x y : string) :
  x ∈ specifiedStrings t IngressSuffixIPAddressType →
  y ∈ specifiedStrings t IngressSuffixIPAddressType →
  x ≠ y →
  buildLoadBalancerIPAddressType t =
    Err (ErrConflictingIPAddressType
           (sets_List (list_to_set (specifiedStrings t IngressSuffixIPAddressType)))).
Proof.
  intros Hx Hy Hne. unfold buildLoadBalancerIPAddressType.
  rewrite explicitIPAddressTypes_specified.
  assert (Hsize : (1 < size (list_to_set (specifiedStrings t IngressSuffixIPAddressType)
                              : gset string))%nat).
  { apply (gset_size_two _ x y); set_solver. }
  rewrite decide_False by lia. by rewrite decide_True.
Qed.

(** C4. A single-valued field (the scheme, the address family) that no
    member specifies takes the default of the task. When the members that
    specify it all give one raw value, that value is checked against the
    two values of the field: one of them is returned as it is, any other
    is an error that names it. When two members give different values,
    the build of the field fails with a conflict that lists the distinct
    values specified, and only them. *)
Theorem single_valued_fields `{P : Packages} (t : defaultModelBuildTask) :
  let schemes := specifiedStrings t IngressSuffixScheme in
  let ipAddressTypes := specifiedStrings t IngressSuffixIPAddressType in
  ( (schemes = [] → buildLoadBalancerScheme t = Ok (defaultScheme t))
  ∧ (∀ raw, raw ∈ schemes → (∀ x, x ∈ schemes → x = raw) →
       (raw = LoadBalancerSchemeInternetFacing ∨ raw = LoadBalancerSchemeInternal →
          buildLoadBalancerScheme t = Ok raw)
     ∧ (raw ≠ LoadBalancerSchemeInternetFacing → raw ≠ LoadBalancerSchemeInternal →
          buildLoadBalancerScheme t = Err (ErrUnknownScheme raw)))
  ∧ (∀ x y, x ∈ schemes → y ∈ schemes → x ≠ y →
       ∃ distinct : gset string,
         buildLoadBalancerScheme t = Err (ErrConflictingScheme distinct)
         ∧ ∀ v, v ∈ distinct ↔ v ∈ schemes) )
  ∧
  ( (ipAddressTypes = [] → buildLoadBalancerIPAddressType t = Ok (defaultIPAddressType t))
  ∧ (∀ raw, raw ∈ ipAddressTypes → (∀ x, x ∈ ipAddressTypes → x = raw) →
       (raw = IPAddressTypeIPV4 ∨ raw = IPAddressTypeDualStack →
          buildLoadBalancerIPAddressType t = Ok raw)
     ∧ (raw ≠ IPAddressTypeIPV4 → raw ≠ IPAddressTypeDualStack →
          buildLoadBalancerIPAddressType t = Err (ErrUnknownIPAddressType raw)))
  ∧ (∀ x y, x ∈ ipAddressTypes → y ∈ ipAddressTypes → x ≠ y →
       ∃ distinct : list string,
         buildLoadBalancerIPAddressType t = Err (ErrConflictingIPAddressType distinct)
         ∧ NoDup distinct
         ∧ ∀ v, v ∈ distinct ↔ v ∈ ipAddressTypes) ).
Proof.
  intros schemes ipAddressTypes. split; (split; [|split]).
  - apply scheme_default.
  - intros raw Hin Hall. rewrite (scheme_single t raw Hin Hall). split.
    + intros [-> | ->].
      * by rewrite decide_True.
      * destruct (decide (LoadBalancerSchemeInternal = LoadBalancerSchemeInternetFacing))
          as [Heq|_]; [by rewrite Heq|by rewrite decide_True].
    + intros H1 H2. by rewrite !decide_False.
  - intros x y Hx Hy Hne. eexists. split; [by apply (scheme_conflict t x y)|].
    intros v. apply elem_of_list_to_set.
  - apply ip_default.
  - intros raw Hin Hall. rewrite (ip_single t raw Hin Hall). split.
    + intros [-> | ->].
      * by rewrite decide_True.
      * destruct (decide (IPAddressTypeDualStack = IPAddressTypeIPV4))
          as [Heq|_]; [by rewrite Heq|by rewrite decide_True].
    + intros H1 H2. by rewrite !decide_False.
  - intros x y Hx Hy Hne. eexists. split; [by apply (ip_conflict t x y)|]. split.
    + apply sets_List_NoDup.
    + intros v. rewrite sets_List_elem_of. apply elem_of_list_to_set.
Qed.

(** The three cases on the sample account: no scheme annotation, one
    member asking for an unknown address family, two members asking for
    different schemes. *)
Lemma single_valued_fields_witness :
  buildLoadBalancerScheme (Sample.task Sample.awesome [Sample.ingress []] [])
    = Ok "internal"
  ∧ buildLoadBalancerIPAddressType
      (Sample.task Sample.awesome
         [Sample.ingress [("ip-address-type", "ipv6")]; Sample.ingress []] [])
    = Err (ErrUnknownIPAddressType "ipv6")
  ∧ ∃ distinct : gset string,
      buildLoadBalancerScheme
        (Sample.task Sample.awesome
           [Sample.ingress [("scheme", "internal")];
            Sample.ingress [("scheme", "internet-facing")];
            Sample.ingress [("scheme", "internal")]] [])
        = Err (ErrConflictingScheme distinct)
      ∧ ∀ v, v ∈ distinct ↔ v ∈ ["internal"; "internet-facing"; "internal"].
Proof.
  split; [|split].
  - apply (proj1 (proj1 (single_valued_fields
             (Sample.task Sample.awesome [Sample.ingress []] [])))).
    reflexivity.
  - apply (proj2 (proj1 (proj2 (proj2 (single_valued_fields
             (Sample.task Sample.awesome
                [Sample.ingress [("ip-address-type", "ipv6")]; Sample.ingress []] []))))
             "ipv6" ltac:(vm_compute; left) ltac:(vm_compute; set_solver))).
    + vm_compute. discriminate.
    + vm_compute. discriminate.
  - apply (proj2 (proj2 (proj1 (single_valued_fields
             (Sample.task Sample.awesome
                [Sample.ingress [("scheme", "internal")];
                 Sample.ingress [("scheme", "internet-facing")];
                 Sample.ingress [("scheme", "internal")]] []))))
             "internal" "internet-facing").
    + vm_compute. left.
    + vm_compute. right. left.
    + discriminate.
Defined.

(** ** Computations that call the collaborators *)

Section Monad.
Context {P : Packages}.

Lemma outcome_bind_Ok {A B} (m : M A) (f : A → M B) (a : A) :
  outcome m = Ok a → outcome (m ≫= f) = outcome (f a).
Proof. unfold outcome, mbind, M_bind. by intros ->. Qed.

Lemma outcome_bind_Err {A B} (m : M A) (f : A → M B) (e : error) :
  outcome m = Err e → outcome (m ≫= f) = Err e.
Proof. unfold outcome, mbind, M_bind. by intros ->. Qed.

Lemma calls_bind_Ok {A B} (m : M A) (f : A → M B) (a : A) :
  outcome m = Ok a → calls (m ≫= f) = calls m ++ calls (f a).
Proof. unfold outcome, calls, mbind, M_bind. by intros ->. Qed.

Lemma calls_bind_Err {A B} (m : M A) (f : A → M B) (e : error) :
  outcome m = Err e → calls (m ≫= f) = calls m.
Proof. unfold outcome, calls, mbind, M_bind. by intros ->. Qed.

Lemma outcome_bind_inv {A B} (m : M A) (f : A → M B) (b : B) :
  outcome (m ≫= f) = Ok b → ∃ a, outcome m = Ok a ∧ outcome (f a) = Ok b.
Proof.
  unfold outcome, mbind, M_bind. destruct m as [cs [a|e]]; simpl; [eauto|done].
Qed.

Lemma pure_bind {A B} (r : result A) (f : A → M B) :
  pure r ≫= f = match r with Ok a => f a | Err e => ([], Err e) end.
Proof.
  unfold pure, mbind, M_bind. destruct r as [a|e]; simpl; [|done].
  by destruct (f a).
Qed.

End Monad.

(** ** Set-valued fields: subnets and security groups *)

Lemma cmp_Equal_IgnoreStringSliceOrder_spec (x y : list string) :
  cmp_Equal_IgnoreStringSliceOrder x y = true ↔ set_equal x y.
Proof.
  unfold cmp_Equal_IgnoreStringSliceOrder, set_equal.
  rewrite bool_decide_eq_true. split.
  - intros Heq s. rewrite <- !(elem_of_list_to_set (C := gset string)). by rewrite Heq.
  - intros Heq. apply set_eq. intros s. rewrite !elem_of_list_to_set. apply Heq.
Qed.

Lemma cmp_Equal_spec (x y : list string) : cmp_Equal x y = true ↔ x = y.
Proof. unfold cmp_Equal. apply bool_decide_eq_true. Qed.

(** The loop that compares every later list with the chosen one. *)
Lemma compare_all_Ok (equal : list string → list string → bool)
    (conflict : list string → list string → error) (chosen : list string)
    (rest : list (list string)) :
  (∀ x, x ∈ rest → equal chosen x = true) →
  forEach (λ _ x, if negb (equal chosen x) then Err (conflict chosen x) else Ok ()) () rest
  = Ok ().
Proof.
  induction rest as [|x rest IH]; intros Hall; simpl; [done|].
  rewrite (Hall x) by set_solver. simpl. apply IH. intros y Hy. apply Hall. set_solver.
Qed.

Lemma compare_all_Err (equal : list string → list string → bool)
    (conflict : list string → list string → error) (chosen : list string)
    (rest : list (list string)) :
  ¬ (∀ x, x ∈ rest → equal chosen x = true) →
  ∃ other, other ∈ rest ∧ equal chosen other = false ∧
    forEach (λ _ x, if negb (equal chosen x) then Err (conflict chosen x) else Ok ()) () rest
    = Err (conflict chosen other).
Proof.
  induction rest as [|x rest IH]; intros Hnot; simpl.
  - destruct Hnot. intros x Hx. set_solver.
  - destruct (equal chosen x) eqn:Hx; simpl.
    + destruct IH as (other & Hin & Hne & Hrun).
      { intros Hall. apply Hnot. intros y Hy.
        apply elem_of_cons in Hy as [-> | Hy]; [done|by apply Hall]. }
      exists other. split; [set_solver|done].
    + exists x. split; [set_solver|done].
Qed.

Section Lists.
Context {P : Packages}.

Lemma explicitSubnetNameOrIDsList_specified (t : defaultModelBuildTask) :
  explicitSubnetNameOrIDsList t = specifiedLists t IngressSuffixSubnets.
Proof.
  unfold explicitSubnetNameOrIDsList, specifiedLists.
  exact (foldl_collect
    (λ ing, ParseStringSliceAnnotation (annotationParser t) IngressSuffixSubnets
              (Annotations ing)) _ []).
Qed.

Lemma explicitSGNameOrIDsList_specified (t : defaultModelBuildTask) :
  explicitSGNameOrIDsList t = specifiedLists t IngressSuffixSecurityGroups.
Proof.
  unfold explicitSGNameOrIDsList, specifiedLists.
  exact (foldl_collect
    (λ ing, ParseStringSliceAnnotation (annotationParser t) IngressSuffixSecurityGroups
              (Annotations ing)) _ []).
Qed.

Lemma chooseSubnetNameOrIDs_Ok (first : list string) (rest : list (list string)) :
  (∀ x, x ∈ rest → set_equal first x) →
  chooseSubnetNameOrIDs (first :: rest) = Ok first.
Proof.
  intros Hall. unfold chooseSubnetNameOrIDs. simpl.
  rewrite compare_all_Ok; [done|].
  intros x Hx. by apply cmp_Equal_IgnoreStringSliceOrder_spec, Hall.
Qed.

Lemma chooseSubnetNameOrIDs_Err (first : list string) (rest : list (list string)) :
  ¬ (∀ x, x ∈ rest → set_equal first x) →
  ∃ other, other ∈ rest ∧ ¬ set_equal first other ∧
    chooseSubnetNameOrIDs (first :: rest) = Err (ErrConflictingSubnets first other).
Proof.
  intros Hnot. unfold chooseSubnetNameOrIDs. simpl. rewrite drop_0.
  destruct (compare_all_Err cmp_Equal_IgnoreStringSliceOrder ErrConflictingSubnets first rest)
    as (other & Hin & Hne & ->).
  { intros Hall. apply Hnot. intros x Hx.
    by apply cmp_Equal_IgnoreStringSliceOrder_spec, Hall. }
  exists other. split; [done|]. split; [|done].
  intros Heq. apply cmp_Equal_IgnoreStringSliceOrder_spec in Heq. congruence.
Qed.

Lemma chooseSGNameOrIDs_Ok (first : list string) (rest : list (list string)) :
  (∀ x, x ∈ rest → first = x) →
  chooseSGNameOrIDs (first :: rest) = Ok first.
Proof.
  intros Hall. unfold chooseSGNameOrIDs. simpl.
  rewrite compare_all_Ok; [done|].
  intros x Hx. by apply cmp_Equal_spec, Hall.
Qed.

Lemma chooseSGNameOrIDs_Err (first : list string) (rest : list (list string)) :
  ¬ (∀ x, x ∈ rest → first = x) →
  ∃ other, other ∈ rest ∧ first ≠ other ∧
    chooseSGNameOrIDs (first :: rest) = Err (ErrConflictingSecurityGroups first other).
Proof.
  intros Hnot. unfold chooseSGNameOrIDs. simpl. rewrite drop_0.
  destruct (compare_all_Err cmp_Equal ErrConflictingSecurityGroups first rest)
    as (other & Hin & Hne & ->).
  { intros Hall. apply Hnot. intros x Hx. by apply cmp_Equal_spec, Hall. }
  exists other. split; [done|]. split; [|done].
  intros Heq. apply cmp_Equal_spec in Heq. congruence.
Qed.

(** With an explicit list, the builders merge, then resolve. *)
Lemma buildLoadBalancerSubnetMappings_explicit (t : defaultModelBuildTask) (scheme : string) :
  specifiedLists t IngressSuffixSubnets ≠ [] →
  buildLoadBalancerSubnetMappings t scheme =
    match chooseSubnetNameOrIDs (specifiedLists t IngressSuffixSubnets) with
    | Ok chosen =>
        resolveSubnetIDsViaNameOrIDSlice t chosen ≫= λ ids,
          mret (buildLoadBalancerSubnetMappingsWithSubnetIDs ids)
    | Err e => ([], Err e)
    end.
Proof.
  intros Hne. unfold buildLoadBalancerSubnetMappings.
  rewrite explicitSubnetNameOrIDsList_specified.
  rewrite decide_False by (by intros ?%length_zero_iff_nil).
  apply pure_bind.
Qed.

Lemma buildLoadBalancerSecurityGroups_explicit (t : defaultModelBuildTask)
    (cfg : gmap Z listenPortConfig) (ipAddressType : string) :
  specifiedLists t IngressSuffixSecurityGroups ≠ [] →
  buildLoadBalancerSecurityGroups t cfg ipAddressType =
    match chooseSGNameOrIDs (specifiedLists t IngressSuffixSecurityGroups) with
    | Ok chosen =>
        resolveSecurityGroupIDsViaNameOrIDSlice t chosen ≫= λ ids,
          mret (foldl (λ tokens sgID, tokens ++ [LiteralStringToken sgID]) [] ids)
    | Err e => ([], Err e)
    end.
Proof.
  intros Hne. unfold buildLoadBalancerSecurityGroups.
  rewrite explicitSGNameOrIDsList_specified.
  rewrite decide_False by (by intros ?%length_zero_iff_nil).
  apply pure_bind.
Qed.

End Lists.

Lemma agree_with_first {A} (R : A → A → Prop) `{!Equivalence R} (first : A) (rest : list A) :
  (∀ x y, x ∈ first :: rest → y ∈ first :: rest → R x y) ↔ (∀ x, x ∈ rest → R first x).
Proof.
  split.
  - intros Hall x Hx. apply Hall; set_solver.
  - intros Hall x y Hx Hy.
    assert (Hfirst : ∀ z, z ∈ first :: rest → R first z).
    { intros z [-> | Hz]%elem_of_cons; [reflexivity|by apply Hall]. }
    transitivity first; [symmetry|]; by apply Hfirst.
Qed.

#[global] Instance set_equal_equivalence : Equivalence set_equal.
Proof.
  unfold set_equal. split.
  - by intros x s.
  - intros x y Hxy s. by rewrite Hxy.
  - intros x y z Hxy Hyz s. by rewrite Hxy, Hyz.
Qed.

(** C1, as the code has it. The lists of subnets that the members specify
    are merged as sets: when any two of them hold the same strings, in
    whatever order and number, the merge returns the list of the first
    member that specifies one, as that member wrote it. The lists of
    security groups are merged as sequences: the merge returns the first
    list when all the lists are the same strings in the same order. In
    both fields any other case is a conflict that names the first list and
    a later list that differs from it, and the builder of the field
    returns that conflict without calling a collaborator. *)
Theorem set_valued_fields `{P : Packages} (t : defaultModelBuildTask) :
  let subnetLists := specifiedLists t IngressSuffixSubnets in
  let sgLists := specifiedLists t IngressSuffixSecurityGroups in
  explicitSubnetNameOrIDsList t = subnetLists
  ∧ explicitSGNameOrIDsList t = sgLists
  ∧ (∀ first rest, subnetLists = first :: rest →
       ((∀ x y, x ∈ subnetLists → y ∈ subnetLists → set_equal x y) →
          chooseSubnetNameOrIDs subnetLists = Ok first)
     ∧ (¬ (∀ x y, x ∈ subnetLists → y ∈ subnetLists → set_equal x y) →
          ∃ other, other ∈ rest ∧ ¬ set_equal first other
            ∧ chooseSubnetNameOrIDs subnetLists = Err (ErrConflictingSubnets first other)
            ∧ ∀ scheme, buildLoadBalancerSubnetMappings t scheme
                        = ([], Err (ErrConflictingSubnets first other))))
  ∧ (∀ first rest, sgLists = first :: rest →
       ((∀ x y, x ∈ sgLists → y ∈ sgLists → x = y) →
          chooseSGNameOrIDs sgLists = Ok first)
     ∧ (¬ (∀ x y, x ∈ sgLists → y ∈ sgLists → x = y) →
          ∃ other, other ∈ rest ∧ first ≠ other
            ∧ chooseSGNameOrIDs sgLists = Err (ErrConflictingSecurityGroups first other)
            ∧ ∀ cfg ipAddressType, buildLoadBalancerSecurityGroups t cfg ipAddressType
                        = ([], Err (ErrConflictingSecurityGroups first other)))).
Proof.
  intros subnetLists sgLists.
  split; [apply explicitSubnetNameOrIDsList_specified|].
  split; [apply explicitSGNameOrIDsList_specified|].
  split.
  - intros first rest Heq. split.
    + intros Hall. rewrite Heq in *.
      apply chooseSubnetNameOrIDs_Ok. by apply (agree_with_first set_equal).
    + intros Hnot.
      destruct (chooseSubnetNameOrIDs_Err first rest) as (other & Hin & Hne & Hrun).
      { intros Hall. apply Hnot. rewrite Heq. by apply (agree_with_first set_equal). }
      exists other. rewrite Heq. repeat split; try done.
      intros scheme. rewrite buildLoadBalancerSubnetMappings_explicit.
      * fold subnetLists. by rewrite Heq, Hrun.
      * fold subnetLists. by rewrite Heq.
  - intros first rest Heq. split.
    + intros Hall. rewrite Heq in *.
      apply chooseSGNameOrIDs_Ok. by apply (agree_with_first eq).
    + intros Hnot.
      destruct (chooseSGNameOrIDs_Err first rest) as (other & Hin & Hne & Hrun).
      { intros Hall. apply Hnot. rewrite Heq. by apply (agree_with_first eq). }
      exists other. rewrite Heq. repeat split; try done.
      intros cfg ipAddressType. rewrite buildLoadBalancerSecurityGroups_explicit.
      * fold sgLists. by rewrite Heq, Hrun.
      * fold sgLists. by rewrite Heq.
Qed.

(** Three members give the subnets [subnet-1,subnet-2], the same two in
    the other order, and the same two with one repeated: the merge
    returns the list of the first member. *)
Lemma set_valued_fields_witness :
  chooseSubnetNameOrIDs
    (specifiedLists
       (Sample.task Sample.awesome
          [Sample.ingress [("subnets", "subnet-1,subnet-2")];
           Sample.ingress [("subnets", "subnet-2,subnet-1")];
           Sample.ingress [("subnets", "subnet-2,subnet-1,subnet-2")]] [])
       "subnets")
  = Ok ["subnet-1"; "subnet-2"].
Proof.
  refine (proj1 (proj1 (proj2 (proj2 (set_valued_fields
            (Sample.task Sample.awesome
               [Sample.ingress [("subnets", "subnet-1,subnet-2")];
                Sample.ingress [("subnets", "subnet-2,subnet-1")];
                Sample.ingress [("subnets", "subnet-2,subnet-1,subnet-2")]] []))))
            ["subnet-1"; "subnet-2"]
            [["subnet-2"; "subnet-1"]; ["subnet-2"; "subnet-1"; "subnet-2"]] _) _).
  - vm_compute. reflexivity.
  - assert (Hlists : specifiedLists
             (Sample.task Sample.awesome
                [Sample.ingress [("subnets", "subnet-1,subnet-2")];
                 Sample.ingress [("subnets", "subnet-2,subnet-1")];
                 Sample.ingress [("subnets", "subnet-2,subnet-1,subnet-2")]] [])
             "subnets"
           = [["subnet-1"; "subnet-2"]; ["subnet-2"; "subnet-1"];
              ["subnet-2"; "subnet-1"; "subnet-2"]]) by (vm_compute; reflexivity).
    simpl. rewrite Hlists. intros x y Hx Hy.
    repeat (apply elem_of_cons in Hx as [-> | Hx]);
      try (by apply elem_of_nil in Hx);
      repeat (apply elem_of_cons in Hy as [-> | Hy]);
      try (by apply elem_of_nil in Hy);
      unfold set_equal; set_solver.
Defined.

(** C1 fails for the security groups: two members give the same two
    groups in different orders, and the build of the field is a
    conflict. *)
Lemma set_valued_fields_counterexample :
  let t := Sample.task Sample.awesome
             [Sample.ingress [("security-groups", "sg-123,sg-456")];
              Sample.ingress [("security-groups", "sg-456,sg-123")]] [] in
  specifiedLists t "security-groups" = [["sg-123"; "sg-456"]; ["sg-456"; "sg-123"]]
  ∧ set_equal ["sg-123"; "sg-456"] ["sg-456"; "sg-123"]
  ∧ outcome (buildLoadBalancerSecurityGroups t ∅ "ipv4")
    = Err (ErrConflictingSecurityGroups ["sg-123"; "sg-456"] ["sg-456"; "sg-123"]).
Proof.
  split; [|split].
  - vm_compute. reflexivity.
  - unfold set_equal. set_solver.
  - vm_compute. reflexivity.
Qed.

(** ** The reference resolvers *)

Lemma splitNameOrIDs_filter (idPrefix : string) (tokens : list string) :
  splitNameOrIDs idPrefix tokens
  = (filter (isID idPrefix) tokens, filter (λ token, ¬ isID idPrefix token) tokens).
Proof.
  unfold splitNameOrIDs.
  enough (Hgen : ∀ ids names,
    foldl (λ '(ids, names) nameOrID,
             if HasPrefix nameOrID idPrefix then (ids ++ [nameOrID], names)
             else (ids, names ++ [nameOrID])) (ids, names) tokens
    = (ids ++ filter (isID idPrefix) tokens,
       names ++ filter (λ token, ¬ isID idPrefix token) tokens)) by apply Hgen.
  induction tokens as [|x tokens IH]; intros ids names; simpl.
  - by rewrite !app_nil_r.
  - unfold isID at 1 3. destruct (HasPrefix x idPrefix) eqn:Hx.
    + rewrite IH. rewrite filter_cons_True by done.
      rewrite filter_cons_False by (unfold isID; rewrite Hx; auto).
      by rewrite <- app_assoc.
    + rewrite IH. rewrite filter_cons_False by (unfold isID; by rewrite Hx).
      rewrite filter_cons_True by (unfold isID; by rewrite Hx).
      by rewrite <- app_assoc.
Qed.

Lemma length_split (idPrefix : string) (tokens : list string) :
  (length (filter (isID idPrefix) tokens)
   + length (filter (λ token, ¬ isID idPrefix token) tokens) = length tokens)%nat.
Proof.
  rewrite <- length_app. by rewrite (filter_app_complement (isID idPrefix) tokens).
Qed.

Lemma nonempty_length {A} (l : list A) : (0 < length l)%nat ↔ l ≠ [].
Proof. destruct l; simpl; split; (done || lia). Qed.

Section Resolvers.
Context {P : Packages}.

Lemma resolver_outcome {A} (tokens ids names : list string) (c1 c2 : Call)
    (r1 r2 : result (list A)) (getID : A → string)
    (notFound : list string → list string → error) :
  outcome (resolver tokens ids names c1 c2 r1 r2 getID notFound) =
    match found ids names r1 r2 with
    | Ok entries =>
        if decide (length entries = length tokens) then Ok (getID <$> entries)
        else Err (notFound tokens (getID <$> entries))
    | Err e => Err e
    end.
Proof.
  unfold resolver, found.
  unfold outcome, call, throw, mbind, M_bind, result_bind, mret, M_ret.
  destruct ids as [|i ids], names as [|n names], r1 as [byID|e1], r2 as [byName|e2];
    simpl; try done;
    rewrite ?foldl_snoc, ?app_nil_r; simpl; rewrite ?length_fmap;
    repeat case_decide; simpl in *; try done; try lia.
Qed.

Lemma resolver_calls {A} (tokens ids names : list string) (c1 c2 : Call)
    (r1 r2 : result (list A)) (getID : A → string)
    (notFound : list string → list string → error) :
  ∀ c, c ∈ calls (resolver tokens ids names c1 c2 r1 r2 getID notFound) → c = c1 ∨ c = c2.
Proof.
  unfold resolver.
  unfold calls, call, throw, mbind, M_bind, result_bind, mret, M_ret.
  destruct ids as [|i ids], names as [|n names], r1 as [byID|e1], r2 as [byName|e2];
    simpl; repeat case_decide; simpl; set_solver.
Qed.

Lemma resolveSubnetIDsViaNameOrIDSlice_resolver (t : defaultModelBuildTask)
    (tokens : list string) :
  resolveSubnetIDsViaNameOrIDSlice t tokens =
    resolver tokens (filter (isID "subnet-") tokens)
      (filter (λ token, ¬ isID "subnet-" token) tokens)
      (CallDescribeSubnets (subnetsByIDs (filter (isID "subnet-") tokens)))
      (CallDescribeSubnets
         (subnetsByNames (vpcID t) (filter (λ token, ¬ isID "subnet-" token) tokens)))
      (DescribeSubnetsAsList (ec2Client t) (subnetsByIDs (filter (isID "subnet-") tokens)))
      (DescribeSubnetsAsList (ec2Client t)
         (subnetsByNames (vpcID t) (filter (λ token, ¬ isID "subnet-" token) tokens)))
      (λ subnet, awssdk_StringValue (SubnetId subnet))
      ErrSubnetsNotFound.
Proof.
  unfold resolveSubnetIDsViaNameOrIDSlice. by rewrite splitNameOrIDs_filter.
Qed.

Lemma resolveSecurityGroupIDsViaNameOrIDSlice_resolver (t : defaultModelBuildTask)
    (tokens : list string) :
  resolveSecurityGroupIDsViaNameOrIDSlice t tokens =
    resolver tokens (filter (isID "sg-") tokens)
      (filter (λ token, ¬ isID "sg-" token) tokens)
      (CallDescribeSecurityGroups (securityGroupsByIDs (filter (isID "sg-") tokens)))
      (CallDescribeSecurityGroups
         (securityGroupsByNames (vpcID t) (filter (λ token, ¬ isID "sg-" token) tokens)))
      (DescribeSecurityGroupsAsList (ec2Client t)
         (securityGroupsByIDs (filter (isID "sg-") tokens)))
      (DescribeSecurityGroupsAsList (ec2Client t)
         (securityGroupsByNames (vpcID t) (filter (λ token, ¬ isID "sg-" token) tokens)))
      (λ sg, awssdk_StringValue (GroupId sg))
      ErrSecurityGroupsNotFound.
Proof.
  unfold resolveSecurityGroupIDsViaNameOrIDSlice. by rewrite splitNameOrIDs_filter.
Qed.

Lemma resolveSubnetIDsViaNameOrIDSlice_outcome (t : defaultModelBuildTask)
    (tokens : list string) :
  outcome (resolveSubnetIDsViaNameOrIDSlice t tokens) =
    match foundSubnets t tokens with
    | Ok entries =>
        if decide (length entries = length tokens) then Ok (subnetIDs entries)
        else Err (ErrSubnetsNotFound tokens (subnetIDs entries))
    | Err e => Err e
    end.
Proof.
  rewrite resolveSubnetIDsViaNameOrIDSlice_resolver. apply resolver_outcome.
Qed.

Lemma resolveSecurityGroupIDsViaNameOrIDSlice_outcome (t : defaultModelBuildTask)
    (tokens : list string) :
  outcome (resolveSecurityGroupIDsViaNameOrIDSlice t tokens) =
    match foundSecurityGroups t tokens with
    | Ok entries =>
        if decide (length entries = length tokens) then Ok (securityGroupIDs entries)
        else Err (ErrSecurityGroupsNotFound tokens (securityGroupIDs entries))
    | Err e => Err e
    end.
Proof.
  rewrite resolveSecurityGroupIDsViaNameOrIDSlice_resolver. apply resolver_outcome.
Qed.

End Resolvers.

(** C2. Given the entries that the batched lookups of a resolver return
    for a list of tokens, the resolver succeeds exactly when there are as
    many entries as tokens, and then returns the identifiers of the
    entries; otherwise it fails with the error that holds the tokens as
    they were requested and the identifiers of the entries found. *)
Theorem resolver_completeness `{P : Packages} (t : defaultModelBuildTask)
    (tokens : list string) :
  (∀ entries, foundSubnets t tokens = Ok entries →
     (is_Ok (outcome (resolveSubnetIDsViaNameOrIDSlice t tokens))
        ↔ length entries = length tokens)
   ∧ (length entries = length tokens →
        outcome (resolveSubnetIDsViaNameOrIDSlice t tokens) = Ok (subnetIDs entries))
   ∧ (length entries ≠ length tokens →
        outcome (resolveSubnetIDsViaNameOrIDSlice t tokens)
        = Err (ErrSubnetsNotFound tokens (subnetIDs entries))))
  ∧
  (∀ entries, foundSecurityGroups t tokens = Ok entries →
     (is_Ok (outcome (resolveSecurityGroupIDsViaNameOrIDSlice t tokens))
        ↔ length entries = length tokens)
   ∧ (length entries = length tokens →
        outcome (resolveSecurityGroupIDsViaNameOrIDSlice t tokens)
        = Ok (securityGroupIDs entries))
   ∧ (length entries ≠ length tokens →
        outcome (resolveSecurityGroupIDsViaNameOrIDSlice t tokens)
        = Err (ErrSecurityGroupsNotFound tokens (securityGroupIDs entries)))).
Proof.
  split; intros entries Hfound.
  - rewrite resolveSubnetIDsViaNameOrIDSlice_outcome, Hfound.
    destruct (decide (length entries = length tokens)) as [Heq|Hne].
    + split; [split; [done|by eexists]|]. split; [done|]. by intros [].
    + split; [split; [by intros [ids ?]|done]|]. split; [done|]. done.
  - rewrite resolveSecurityGroupIDsViaNameOrIDSlice_outcome, Hfound.
    destruct (decide (length entries = length tokens)) as [Heq|Hne].
    + split; [split; [done|by eexists]|]. split; [done|]. by intros [].
    + split; [split; [by intros [ids ?]|done]|]. split; [done|]. done.
Qed.

(** On the sample account, [sg-123] and the name [my-sg] resolve to the
    two groups, and of [sg-123] and [sg-999] only the first exists: the
    error holds the two tokens and the one identifier found. *)
Lemma resolver_completeness_witness :
  outcome (resolveSecurityGroupIDsViaNameOrIDSlice
             (Sample.task Sample.awesome [] []) ["sg-123"; "my-sg"])
    = Ok ["sg-123"; "sg-456"]
  ∧ outcome (resolveSecurityGroupIDsViaNameOrIDSlice
               (Sample.task Sample.awesome [] []) ["sg-123"; "sg-999"])
    = Err (ErrSecurityGroupsNotFound ["sg-123"; "sg-999"] ["sg-123"]).
Proof.
  split.
  - refine (proj1 (proj2 (proj2 (resolver_completeness
              (Sample.task Sample.awesome [] []) ["sg-123"; "my-sg"])
              [ {| GroupId := Some "sg-123" |}; {| GroupId := Some "sg-456" |} ] _)) _).
    + vm_compute. reflexivity.
    + reflexivity.
  - refine (proj2 (proj2 (proj2 (resolver_completeness
              (Sample.task Sample.awesome [] []) ["sg-123"; "sg-999"])
              [ {| GroupId := Some "sg-123" |} ] _)) _).
    + vm_compute. reflexivity.
    + simpl. lia.
Defined.

(** ** Selection between the explicit lists and the fallback *)

Lemma buildLoadBalancerSubnetMappingsWithSubnetIDs_map (ids : list string) :
  buildLoadBalancerSubnetMappingsWithSubnetIDs ids = (λ id, {| SubnetID := id |}) <$> ids.
Proof. unfold buildLoadBalancerSubnetMappingsWithSubnetIDs. by rewrite foldl_snoc. Qed.

Section Selection.
Context {P : Packages}.

Lemma specifiedLists_nil (t : defaultModelBuildTask) (suffix : string) :
  specifiedLists t suffix = [] ↔
  ∀ ing, ing ∈ Members (ingGroup t) →
    ParseStringSliceAnnotation (annotationParser t) suffix (Annotations ing) = None.
Proof.
  unfold specifiedLists. induction (Members (ingGroup t)) as [|ing l IH]; simpl.
  - split; [|done]. intros _ ing Hin. by apply elem_of_nil in Hin.
  - destruct (ParseStringSliceAnnotation (annotationParser t) suffix (Annotations ing))
      as [raw|] eqn:Hparse.
    + split; [done|]. intros Hall. specialize (Hall ing). rewrite Hparse in Hall.
      discriminate Hall. set_solver.
    + rewrite IH. split.
      * intros Hall ing' [-> | Hin]%elem_of_cons; [done|by apply Hall].
      * intros Hall ing' Hin. apply Hall. set_solver.
Qed.

Lemma buildLoadBalancerSubnetMappings_fallback (t : defaultModelBuildTask) (scheme : string) :
  specifiedLists t IngressSuffixSubnets = [] →
  buildLoadBalancerSubnetMappings t scheme =
    ([CallDiscoverSubnets scheme],
     match DiscoverSubnets (subnetsResolver t) scheme with
     | Ok chosenSubnets =>
         if decide (length chosenSubnets < 2)%nat
         then Err (ErrInsufficientSubnets (subnetIDs chosenSubnets))
         else Ok ((λ id, {| SubnetID := id |}) <$> subnetIDs chosenSubnets)
     | Err e => Err e
     end).
Proof.
  intros Hnil. unfold buildLoadBalancerSubnetMappings.
  rewrite explicitSubnetNameOrIDsList_specified, Hnil. simpl.
  unfold call, throw, mbind, M_bind, mret, M_ret. simpl.
  destruct (DiscoverSubnets (subnetsResolver t) scheme) as [chosenSubnets|e]; simpl; [|done].
  rewrite foldl_snoc. simpl. fold (subnetIDs chosenSubnets).
  assert (Hlen : length (subnetIDs chosenSubnets) = length chosenSubnets)
    by apply length_fmap.
  rewrite Hlen.
  destruct (decide (length chosenSubnets < 2)%nat); simpl; [done|].
  by rewrite buildLoadBalancerSubnetMappingsWithSubnetIDs_map.
Qed.

Lemma buildLoadBalancerSecurityGroups_fallback (t : defaultModelBuildTask)
    (cfg : gmap Z listenPortConfig) (ipAddressType : string) :
  specifiedLists t IngressSuffixSecurityGroups = [] →
  buildLoadBalancerSecurityGroups t cfg ipAddressType =
    ([CallBuildManagedSecurityGroup cfg ipAddressType],
     match buildManagedSecurityGroup t cfg ipAddressType with
     | Ok sg => Ok [sg_GroupID sg]
     | Err e => Err e
     end).
Proof.
  intros Hnil. unfold buildLoadBalancerSecurityGroups.
  rewrite explicitSGNameOrIDsList_specified, Hnil. simpl.
  unfold call, mbind, M_bind, mret, M_ret. simpl.
  by destruct (buildManagedSecurityGroup t cfg ipAddressType).
Qed.

(** With an explicit list, the only calls are the lookups of the resolver. *)
Lemma buildLoadBalancerSubnetMappings_explicit_calls (t : defaultModelBuildTask)
    (scheme : string) (c : Call) :
  specifiedLists t IngressSuffixSubnets ≠ [] →
  c ∈ calls (buildLoadBalancerSubnetMappings t scheme) →
  ∃ req, c = CallDescribeSubnets req.
Proof.
  intros Hne. rewrite buildLoadBalancerSubnetMappings_explicit by done.
  destruct (chooseSubnetNameOrIDs (specifiedLists t IngressSuffixSubnets)) as [chosen|e].
  - rewrite resolveSubnetIDsViaNameOrIDSlice_resolver.
    match goal with |- context [resolver ?x1 ?x2 ?x3 ?x4 ?x5 ?x6 ?x7 ?x8 ?x9] =>
      pose proof (resolver_calls x1 x2 x3 x4 x5 x6 x7 x8 x9 c) as Hcalls;
      set (m := resolver x1 x2 x3 x4 x5 x6 x7 x8 x9) in *
    end.
    unfold calls, mbind, M_bind, mret, M_ret in *.
    destruct m as [cs [ids|e]]; simpl in *; rewrite ?app_nil_r;
      intros Hin; destruct (Hcalls Hin) as [-> | ->]; eauto.
  - simpl. intros Hin. by apply elem_of_nil in Hin.
Qed.

Lemma buildLoadBalancerSecurityGroups_explicit_calls (t : defaultModelBuildTask)
    (cfg : gmap Z listenPortConfig) (ipAddressType : string) (c : Call) :
  specifiedLists t IngressSuffixSecurityGroups ≠ [] →
  c ∈ calls (buildLoadBalancerSecurityGroups t cfg ipAddressType) →
  ∃ req, c = CallDescribeSecurityGroups req.
Proof.
  intros Hne. rewrite buildLoadBalancerSecurityGroups_explicit by done.
  destruct (chooseSGNameOrIDs (specifiedLists t IngressSuffixSecurityGroups)) as [chosen|e].
  - rewrite resolveSecurityGroupIDsViaNameOrIDSlice_resolver.
    match goal with |- context [resolver ?x1 ?x2 ?x3 ?x4 ?x5 ?x6 ?x7 ?x8 ?x9] =>
      pose proof (resolver_calls x1 x2 x3 x4 x5 x6 x7 x8 x9 c) as Hcalls;
      set (m := resolver x1 x2 x3 x4 x5 x6 x7 x8 x9) in *
    end.
    unfold calls, mbind, M_bind, mret, M_ret in *.
    destruct m as [cs [ids|e]]; simpl in *; rewrite ?app_nil_r;
      intros Hin; destruct (Hcalls Hin) as [-> | ->]; eauto.
  - simpl. intros Hin. by apply elem_of_nil in Hin.
Qed.

End Selection.

(** C3, as the code has it. When no member specifies subnets, the build of
    the subnet mappings succeeds exactly when discovery returns at least
    two subnets, and then maps them in the order of discovery; the
    availability zones of the subnets are not looked at. With fewer than
    two subnets it fails with the error that holds the identifiers
    discovered, and an error of discovery is returned as it is. *)
Theorem fallback_placement `{P : Packages} (t : defaultModelBuildTask) (scheme : string) :
  specifiedLists t IngressSuffixSubnets = [] →
  (∀ discovered, DiscoverSubnets (subnetsResolver t) scheme = Ok discovered →
     ((2 ≤ length discovered)%nat →
        outcome (buildLoadBalancerSubnetMappings t scheme)
        = Ok ((λ id, {| SubnetID := id |}) <$> subnetIDs discovered))
   ∧ ((length discovered < 2)%nat →
        outcome (buildLoadBalancerSubnetMappings t scheme)
        = Err (ErrInsufficientSubnets (subnetIDs discovered))))
  ∧ (∀ e, DiscoverSubnets (subnetsResolver t) scheme = Err e →
       outcome (buildLoadBalancerSubnetMappings t scheme) = Err e)
  ∧ (is_Ok (outcome (buildLoadBalancerSubnetMappings t scheme)) ↔
     ∃ discovered, DiscoverSubnets (subnetsResolver t) scheme = Ok discovered
                   ∧ (2 ≤ length discovered)%nat).
Proof.
  intros Hnil. rewrite buildLoadBalancerSubnetMappings_fallback by done.
  unfold outcome. simpl.
  destruct (DiscoverSubnets (subnetsResolver t) scheme) as [discovered|e].
  - split; [|split; [done|]].
    + intros ? [= <-]. split; intros Hlen.
      * by rewrite decide_False by lia.
      * by rewrite decide_True by lia.
    + destruct (decide (length discovered < 2)%nat) as [Hlt|Hge]; split.
      * by intros [? ?].
      * intros (? & [= <-] & ?). lia.
      * intros _. exists discovered. split; [done|lia].
      * intros _. by eexists.
  - split; [done|]. split; [by intros ? [= <-]|].
    split; [by intros [? ?]|by intros (? & ? & ?)].
Qed.

(** No member specifies subnets and discovery returns one subnet. *)
Lemma fallback_placement_witness :
  outcome (buildLoadBalancerSubnetMappings
             (Sample.task Sample.awesome [Sample.ingress []] (take 1 Sample.subnets))
             "internal")
  = Err (ErrInsufficientSubnets ["subnet-1"]).
Proof.
  refine (proj2 (proj1 (fallback_placement
            (Sample.task Sample.awesome [Sample.ingress []] (take 1 Sample.subnets))
            "internal" _) (Sample.subnet <$> take 1 Sample.subnets) _) _).
  - vm_compute. reflexivity.
  - reflexivity.
  - simpl. lia.
Defined.

(** C3 fails where it asks for distinct failure domains: discovery returns
    two subnets of one availability zone, and the build succeeds. *)
Lemma fallback_placement_counterexample :
  let a := {| Sample.res_id := "subnet-1"; Sample.res_name := "public-a";
              Sample.res_vpc := "vpc-1"; Sample.res_az := "us-west-2a" |} in
  let b := {| Sample.res_id := "subnet-3"; Sample.res_name := "public-a2";
              Sample.res_vpc := "vpc-1"; Sample.res_az := "us-west-2a" |} in
  let t := Sample.task Sample.awesome [Sample.ingress []] [a; b] in
  specifiedLists t "subnets" = []
  ∧ DiscoverSubnets (subnetsResolver t) "internal" = Ok [Sample.subnet a; Sample.subnet b]
  ∧ AvailabilityZone (Sample.subnet a) = AvailabilityZone (Sample.subnet b)
  ∧ outcome (buildLoadBalancerSubnetMappings t "internal")
    = Ok [ {| SubnetID := "subnet-1" |}; {| SubnetID := "subnet-3" |} ].
Proof. repeat split; vm_compute; reflexivity. Qed.

Lemma bind_mret `{P : Packages} {A B} (m : M A) (g : A → B) :
  calls (m ≫= λ a, mret (g a)) = calls m
  ∧ outcome (m ≫= λ a, mret (g a)) = g <$> outcome m.
Proof.
  unfold calls, outcome, mbind, M_bind, mret, M_ret, fmap, result_fmap.
  destruct m as [cs [a|e]]; simpl; by rewrite ?app_nil_r.
Qed.

(** C9. For the subnets and for the security groups, the fallback
    (discovery, the managed security group) is called exactly when no
    member specifies the field, and then it is the only call and the
    result is made of what it returns alone. When some member specifies
    the field, the only calls are lookups of the resolver: if the lists
    of the members agree, the calls of the build are those of the
    resolver on the list of the first member that specifies one, and its
    result is the result of the resolver on that list, error or
    identifiers, to which nothing of the fallback is added; if they
    disagree, the build fails without a call. *)
Theorem explicit_or_fallback `{P : Packages} (t : defaultModelBuildTask)
    (scheme ipAddressType : string) (cfg : gmap Z listenPortConfig) :
  let subnets := buildLoadBalancerSubnetMappings t scheme in
  let sgs := buildLoadBalancerSecurityGroups t cfg ipAddressType in
  ( ((∃ s, CallDiscoverSubnets s ∈ calls subnets)
       ↔ specifiedLists t IngressSuffixSubnets = [])
  ∧ (specifiedLists t IngressSuffixSubnets = [] → calls subnets = [CallDiscoverSubnets scheme])
  ∧ (∀ first rest, specifiedLists t IngressSuffixSubnets = first :: rest →
       (∀ c, c ∈ calls subnets → ∃ req, c = CallDescribeSubnets req)
     ∧ (∀ mappings, outcome subnets = Ok mappings →
          ∃ ids, outcome (resolveSubnetIDsViaNameOrIDSlice t first) = Ok ids
                 ∧ mappings = (λ id, {| SubnetID := id |}) <$> ids))
  ∧ (∀ first rest, specifiedLists t IngressSuffixSubnets = first :: rest →
       ((∀ x, x ∈ rest → set_equal first x) →
          calls subnets = calls (resolveSubnetIDsViaNameOrIDSlice t first)
          ∧ outcome subnets
            = (λ ids : list string, (λ id, {| SubnetID := id |}) <$> ids)
                <$> outcome (resolveSubnetIDsViaNameOrIDSlice t first))
     ∧ (¬ (∀ x, x ∈ rest → set_equal first x) →
          calls subnets = [] ∧ is_Err (outcome subnets)))
  ∧ (specifiedLists t IngressSuffixSubnets = [] →
       outcome subnets
       = match DiscoverSubnets (subnetsResolver t) scheme with
         | Ok discovered =>
             if decide (length discovered < 2)%nat
             then Err (ErrInsufficientSubnets (subnetIDs discovered))
             else Ok ((λ id, {| SubnetID := id |}) <$> subnetIDs discovered)
         | Err e => Err e
         end) )
  ∧
  ( ((∃ c i, CallBuildManagedSecurityGroup c i ∈ calls sgs)
       ↔ specifiedLists t IngressSuffixSecurityGroups = [])
  ∧ (specifiedLists t IngressSuffixSecurityGroups = [] →
       calls sgs = [CallBuildManagedSecurityGroup cfg ipAddressType]
       ∧ ∀ tokens, outcome sgs = Ok tokens →
           ∃ sg, buildManagedSecurityGroup t cfg ipAddressType = Ok sg
                 ∧ tokens = [sg_GroupID sg])
  ∧ (∀ first rest, specifiedLists t IngressSuffixSecurityGroups = first :: rest →
       (∀ c, c ∈ calls sgs → ∃ req, c = CallDescribeSecurityGroups req)
     ∧ (∀ tokens, outcome sgs = Ok tokens →
          ∃ ids, outcome (resolveSecurityGroupIDsViaNameOrIDSlice t first) = Ok ids
                 ∧ tokens = LiteralStringToken <$> ids))
  ∧ (∀ first rest, specifiedLists t IngressSuffixSecurityGroups = first :: rest →
       ((∀ x, x ∈ rest → first = x) →
          calls sgs = calls (resolveSecurityGroupIDsViaNameOrIDSlice t first)
          ∧ outcome sgs
            = (λ ids : list string, LiteralStringToken <$> ids)
                <$> outcome (resolveSecurityGroupIDsViaNameOrIDSlice t first))
     ∧ (¬ (∀ x, x ∈ rest → first = x) →
          calls sgs = [] ∧ is_Err (outcome sgs)))
  ∧ (specifiedLists t IngressSuffixSecurityGroups = [] →
       outcome sgs
       = (λ sg : ManagedSecurityGroup, [sg_GroupID sg])
           <$> buildManagedSecurityGroup t cfg ipAddressType) ).
Proof.
  intros subnets sgs. split; (split; [|split; [|split; [|split]]]).
  - split.
    + intros [s Hs].
      destruct (specifiedLists t IngressSuffixSubnets) as [|first rest] eqn:Heq; [done|].
      destruct (buildLoadBalancerSubnetMappings_explicit_calls t scheme
                  (CallDiscoverSubnets s)) as [req Hreq]; [by rewrite Heq|done|done].
    + intros Hnil. exists scheme. unfold subnets.
      rewrite buildLoadBalancerSubnetMappings_fallback by done. set_solver.
  - intros Hnil. unfold subnets.
    by rewrite buildLoadBalancerSubnetMappings_fallback by done.
  - intros first rest Heq. split.
    + intros c. apply buildLoadBalancerSubnetMappings_explicit_calls. by rewrite Heq.
    + intros mappings. unfold subnets.
      rewrite buildLoadBalancerSubnetMappings_explicit by (by rewrite Heq).
      destruct (chooseSubnetNameOrIDs (specifiedLists t IngressSuffixSubnets))
        as [chosen|e] eqn:Hchoose; [|done].
      assert (chosen = first) as ->.
      { rewrite Heq in Hchoose. unfold chooseSubnetNameOrIDs in Hchoose.
        simpl in Hchoose.
        destruct (forEach _ _ _) in Hchoose; simpl in Hchoose; congruence. }
      intros (ids & Hids & Hret)%outcome_bind_inv. exists ids. split; [done|].
      unfold outcome, mret, M_ret in Hret. simpl in Hret.
      rewrite buildLoadBalancerSubnetMappingsWithSubnetIDs_map in Hret. congruence.
  - intros first rest Heq. unfold subnets.
    rewrite buildLoadBalancerSubnetMappings_explicit by (by rewrite Heq).
    rewrite Heq. split.
    + intros Hall. rewrite chooseSubnetNameOrIDs_Ok by done.
      destruct (bind_mret (resolveSubnetIDsViaNameOrIDSlice t first)
                  buildLoadBalancerSubnetMappingsWithSubnetIDs) as [Hcalls Hout].
      split; [exact Hcalls|]. rewrite Hout.
      destruct (outcome (resolveSubnetIDsViaNameOrIDSlice t first)) as [ids|e]; [|done].
      cbn [fmap result_fmap].
      by rewrite buildLoadBalancerSubnetMappingsWithSubnetIDs_map.
    + intros Hnot.
      destruct (chooseSubnetNameOrIDs_Err first rest Hnot) as (other & _ & _ & ->).
      split; [done|]. by eexists.
  - intros Hnil. unfold subnets.
    by rewrite buildLoadBalancerSubnetMappings_fallback by done.
  - split.
    + intros (c & i & Hs).
      destruct (specifiedLists t IngressSuffixSecurityGroups) as [|first rest] eqn:Heq;
        [done|].
      destruct (buildLoadBalancerSecurityGroups_explicit_calls t cfg ipAddressType
                  (CallBuildManagedSecurityGroup c i)) as [req Hreq];
        [by rewrite Heq|done|done].
    + intros Hnil. exists cfg, ipAddressType. unfold sgs.
      rewrite buildLoadBalancerSecurityGroups_fallback by done. set_solver.
  - intros Hnil. unfold sgs.
    rewrite buildLoadBalancerSecurityGroups_fallback by done. split; [done|].
    unfold outcome. simpl. intros tokens.
    destruct (buildManagedSecurityGroup t cfg ipAddressType) as [sg|e]; [|done].
    intros [= <-]. by exists sg.
  - intros first rest Heq. split.
    + intros c. apply buildLoadBalancerSecurityGroups_explicit_calls. by rewrite Heq.
    + intros tokens. unfold sgs.
      rewrite buildLoadBalancerSecurityGroups_explicit by (by rewrite Heq).
      destruct (chooseSGNameOrIDs (specifiedLists t IngressSuffixSecurityGroups))
        as [chosen|e] eqn:Hchoose; [|done].
      assert (chosen = first) as ->.
      { rewrite Heq in Hchoose. unfold chooseSGNameOrIDs in Hchoose.
        simpl in Hchoose.
        destruct (forEach _ _ _) in Hchoose; simpl in Hchoose; congruence. }
      intros (ids & Hids & Hret)%outcome_bind_inv. exists ids. split; [done|].
      unfold outcome, mret, M_ret in Hret. simpl in Hret.
      rewrite foldl_snoc in Hret. simpl in Hret. congruence.
  - intros first rest Heq. unfold sgs.
    rewrite buildLoadBalancerSecurityGroups_explicit by (by rewrite Heq).
    rewrite Heq. split.
    + intros Hall. rewrite chooseSGNameOrIDs_Ok by done.
      destruct (bind_mret (resolveSecurityGroupIDsViaNameOrIDSlice t first)
                  (λ ids, foldl (λ tokens sgID, tokens ++ [LiteralStringToken sgID]) [] ids))
        as [Hcalls Hout].
      split; [exact Hcalls|]. rewrite Hout.
      destruct (outcome (resolveSecurityGroupIDsViaNameOrIDSlice t first)) as [ids|e];
        [|done].
      cbn [fmap result_fmap]. by rewrite foldl_snoc.
    + intros Hnot.
      destruct (chooseSGNameOrIDs_Err first rest Hnot) as (other & _ & _ & ->).
      split; [done|]. by eexists.
  - intros Hnil. unfold sgs.
    rewrite buildLoadBalancerSecurityGroups_fallback by done. unfold outcome. simpl.
    by destruct (buildManagedSecurityGroup t cfg ipAddressType).
Qed.

(** On the sample account a member asks for two subnets, and discovery
    would return three: discovery is not called. No member asks for
    security groups: the managed group is the only call. A member asks
    for [subnet-1] and for [subnet-999], which does not exist: the build
    returns the error of the resolver, and discovery does not make up for
    the missing subnet. *)
Lemma explicit_or_fallback_witness :
  calls (buildLoadBalancerSecurityGroups
           (Sample.task Sample.awesome
              [Sample.ingress [("subnets", "subnet-1,subnet-2")]] Sample.subnets)
           ∅ "ipv4")
  = [CallBuildManagedSecurityGroup ∅ "ipv4"]
  ∧ (¬ ∃ s, CallDiscoverSubnets s ∈
        calls (buildLoadBalancerSubnetMappings
                 (Sample.task Sample.awesome
                    [Sample.ingress [("subnets", "subnet-1,subnet-2")]] Sample.subnets)
                 "internal"))
  ∧ calls (buildLoadBalancerSubnetMappings
             (Sample.task Sample.awesome
                [Sample.ingress [("subnets", "subnet-1,subnet-999")]] Sample.subnets)
             "internal")
    = [CallDescribeSubnets (subnetsByIDs ["subnet-1"; "subnet-999"])]
  ∧ outcome (buildLoadBalancerSubnetMappings
               (Sample.task Sample.awesome
                  [Sample.ingress [("subnets", "subnet-1,subnet-999")]] Sample.subnets)
               "internal")
    = Err (ErrSubnetsNotFound ["subnet-1"; "subnet-999"] ["subnet-1"]).
Proof.
  split; [|split].
  - refine (proj1 (proj1 (proj2 (proj2 (explicit_or_fallback
              (Sample.task Sample.awesome
                 [Sample.ingress [("subnets", "subnet-1,subnet-2")]] Sample.subnets)
              "internal" "ipv4" ∅))) _)).
    vm_compute. reflexivity.
  - intros Hcall.
    apply (proj1 (proj1 (proj1 (explicit_or_fallback
              (Sample.task Sample.awesome
                 [Sample.ingress [("subnets", "subnet-1,subnet-2")]] Sample.subnets)
              "internal" "ipv4" ∅)))) in Hcall.
    vm_compute in Hcall. discriminate Hcall.
  - destruct (proj1 (proj1 (proj2 (proj2 (proj2 (proj1 (explicit_or_fallback
                (Sample.task Sample.awesome
                   [Sample.ingress [("subnets", "subnet-1,subnet-999")]] Sample.subnets)
                "internal" "ipv4" ∅)))))
                ["subnet-1"; "subnet-999"] [] ltac:(vm_compute; reflexivity))
              ltac:(intros x Hx; by apply elem_of_nil in Hx)) as [Hcalls Hout].
    rewrite Hcalls, Hout. split; vm_compute; reflexivity.
Defined.

(** ** The assembly of the spec *)

Section Assembly.
Context {P : Packages}.

Lemma buildLoadBalancerSpec_outcome (t : defaultModelBuildTask)
    (cfg : gmap Z listenPortConfig) :
  outcome (buildLoadBalancerSpec t cfg) =
    scheme ← buildLoadBalancerScheme t;
    ipAddressType ← buildLoadBalancerIPAddressType t;
    subnetMappings ← outcome (buildLoadBalancerSubnetMappings t scheme);
    securityGroups ← outcome (buildLoadBalancerSecurityGroups t cfg ipAddressType);
    attributes ← buildLoadBalancerAttributes t;
    tags ← buildLoadBalancerTags t;
    Ok {| spec_Name := buildLoadBalancerName t scheme;
          spec_Type := LoadBalancerTypeApplication;
          spec_Scheme := Some scheme;
          spec_IPAddressType := Some ipAddressType;
          spec_SubnetMappings := subnetMappings;
          spec_SecurityGroups := securityGroups;
          spec_LoadBalancerAttributes := attributes;
          spec_Tags := tags |}.
Proof.
  unfold buildLoadBalancerSpec. rewrite !pure_bind.
  destruct (buildLoadBalancerScheme t) as [scheme|e]; [|done].
  rewrite pure_bind.
  destruct (buildLoadBalancerIPAddressType t) as [ipAddressType|e]; [|done].
  cbn [mbind result_bind].
  destruct (outcome (buildLoadBalancerSubnetMappings t scheme)) as [sm|e] eqn:Hsm;
    [|by rewrite (outcome_bind_Err _ _ e)].
  rewrite (outcome_bind_Ok _ _ sm) by done.
  destruct (outcome (buildLoadBalancerSecurityGroups t cfg ipAddressType)) as [sg|e] eqn:Hsg;
    [|by rewrite (outcome_bind_Err _ _ e)].
  rewrite (outcome_bind_Ok _ _ sg) by done.
  rewrite pure_bind.
  destruct (buildLoadBalancerAttributes t) as [attributes|e]; [|done].
  rewrite pure_bind.
  destruct (buildLoadBalancerTags t) as [tags|e]; [|done].
  done.
Qed.

End Assembly.

(** C8. The spec build fails with [e] exactly when one of the six field
    evaluations fails with [e], and it returns a spec exactly when all six
    succeed, the spec holding their values; so a spec is never returned
    when an evaluation fails. In particular the build fails as soon as
    one of the evaluations that read only the annotations fails. *)
Theorem all_or_nothing `{P : Packages} (t : defaultModelBuildTask)
    (cfg : gmap Z listenPortConfig) :
  (∀ e, outcome (buildLoadBalancerSpec t cfg) = Err e ↔ fieldFailure t cfg e)
  ∧ (∀ spec, outcome (buildLoadBalancerSpec t cfg) = Ok spec ↔ allFieldsBuilt t cfg spec)
  ∧ (is_Err (buildLoadBalancerScheme t) ∨ is_Err (buildLoadBalancerIPAddressType t)
     ∨ is_Err (buildLoadBalancerAttributes t) ∨ is_Err (buildLoadBalancerTags t) →
     is_Err (outcome (buildLoadBalancerSpec t cfg))).
Proof.
  rewrite buildLoadBalancerSpec_outcome. unfold allFieldsBuilt, is_Err.
  destruct (buildLoadBalancerScheme t) as [scheme|e1] eqn:H1; cbn [mbind result_bind].
  2:{ split; [|split].
      - intros e. split; [intros [= <-]; by constructor|].
        intros Hfail; inversion Hfail; congruence.
      - intros spec. split; [done|]. by intros (? & ? & ? & ? & ? & ? & ? & _).
      - intros _. by eexists. }
  destruct (buildLoadBalancerIPAddressType t) as [ip|e2] eqn:H2; cbn [mbind result_bind].
  2:{ split; [|split].
      - intros e. split; [intros [= <-]; by econstructor 2|].
        intros Hfail; inversion Hfail; congruence.
      - intros spec. split; [done|]. by intros (? & ? & ? & ? & ? & ? & _ & ? & _).
      - intros _. by eexists. }
  destruct (outcome (buildLoadBalancerSubnetMappings t scheme)) as [sm|e3] eqn:H3;
    cbn [mbind result_bind].
  2:{ split; [|split].
      - intros e. split; [intros [= <-]; by econstructor 3|].
        intros Hfail; inversion Hfail; congruence.
      - intros spec. split; [done|].
        intros (? & ? & ? & ? & ? & ? & [= <-] & _ & ? & _). congruence.
      - intros _. by eexists. }
  destruct (outcome (buildLoadBalancerSecurityGroups t cfg ip)) as [sg|e4] eqn:H4;
    cbn [mbind result_bind].
  2:{ split; [|split].
      - intros e. split; [intros [= <-]; by econstructor 4|].
        intros Hfail; inversion Hfail; congruence.
      - intros spec. split; [done|].
        intros (? & ? & ? & ? & ? & ? & _ & [= <-] & _ & ? & _). congruence.
      - intros _. by eexists. }
  destruct (buildLoadBalancerAttributes t) as [attributes|e5] eqn:H5; cbn [mbind result_bind].
  2:{ split; [|split].
      - intros e. split; [intros [= <-]; by econstructor 5|].
        intros Hfail; inversion Hfail; congruence.
      - intros spec. split; [done|].
        by intros (? & ? & ? & ? & ? & ? & _ & _ & _ & _ & ? & _).
      - intros _. by eexists. }
  destruct (buildLoadBalancerTags t) as [tags|e6] eqn:H6; cbn [mbind result_bind].
  2:{ split; [|split].
      - intros e. split; [intros [= <-]; by econstructor 6|].
        intros Hfail; inversion Hfail; congruence.
      - intros spec. split; [done|].
        by intros (? & ? & ? & ? & ? & ? & _ & _ & _ & _ & _ & ? & _).
      - intros _. by eexists. }
  split; [|split].
  - intros e. split; [done|]. intros Hfail; inversion Hfail; congruence.
  - intros spec. split.
    + intros [= <-]. by exists scheme, ip, sm, sg, attributes, tags.
    + intros (? & ? & ? & ? & ? & ? & [= <-] & [= <-] & Hsm & Hsg & [= <-] & [= <-] & ->).
      congruence.
  - intros [[? ?] | [[? ?] | [[? ?] | [? ?]]]]; congruence.
Qed.

(** Two members give the tag [a] two values: the build fails with the
    conflict, after every other field was built. *)
Lemma all_or_nothing_witness :
  outcome (buildLoadBalancerSpec
             (Sample.task Sample.awesome
                [Sample.ingress [("tags", "a=1")]; Sample.ingress [("tags", "a=2")]]
                Sample.subnets) ∅)
  = Err (ErrConflictingTag "a" "1" "2").
Proof.
  apply (proj1 (all_or_nothing
           (Sample.task Sample.awesome
              [Sample.ingress [("tags", "a=1")]; Sample.ingress [("tags", "a=2")]]
              Sample.subnets) ∅)).
  eapply tags_fail; vm_compute; reflexivity.
Defined.

(** ** Tokens that repeat *)

Lemma remove_dups_length_le (l : list string) : (length (remove_dups l) ≤ length l)%nat.
Proof.
  induction l as [|x l IH]; simpl; [done|].
  destruct (decide_rel elem_of x l); simpl; lia.
Qed.

Lemma remove_dups_length_lt (l : list string) :
  ¬ NoDup l → (length (remove_dups l) < length l)%nat.
Proof.
  induction l as [|x l IH]; intros Hdup; simpl.
  - destruct Hdup. constructor.
  - pose proof (remove_dups_length_le l).
    destruct (decide_rel elem_of x l) as [Hin|Hnotin]; simpl; [lia|].
    assert (¬ NoDup l) by (intros Hnd; apply Hdup; by constructor).
    specialize (IH ltac:(done)). lia.
Qed.

(** C10. A list of tokens in which a token repeats is not resolved when
    the lookups return one entry for each distinct token: the entries are
    fewer than the tokens, so the resolver fails with the error that holds
    the tokens and the identifiers found, and so does the build of the
    field for a group in which one member specifies that list. *)
Theorem repeated_tokens `{P : Packages} (t : defaultModelBuildTask) (tokens : list string) :
  ¬ NoDup tokens →
  (∀ entries, foundSubnets t tokens = Ok entries →
     length entries = length (remove_dups tokens) →
     outcome (resolveSubnetIDsViaNameOrIDSlice t tokens)
       = Err (ErrSubnetsNotFound tokens (subnetIDs entries))
     ∧ (specifiedLists t IngressSuffixSubnets = [tokens] →
        ∀ scheme, outcome (buildLoadBalancerSubnetMappings t scheme)
                  = Err (ErrSubnetsNotFound tokens (subnetIDs entries))))
  ∧
  (∀ entries, foundSecurityGroups t tokens = Ok entries →
     length entries = length (remove_dups tokens) →
     outcome (resolveSecurityGroupIDsViaNameOrIDSlice t tokens)
       = Err (ErrSecurityGroupsNotFound tokens (securityGroupIDs entries))
     ∧ (specifiedLists t IngressSuffixSecurityGroups = [tokens] →
        ∀ cfg ipAddressType,
          outcome (buildLoadBalancerSecurityGroups t cfg ipAddressType)
          = Err (ErrSecurityGroupsNotFound tokens (securityGroupIDs entries)))).
Proof.
  intros Hdup. pose proof (remove_dups_length_lt tokens Hdup) as Hlt.
  split; intros entries Hfound Hlen.
  - assert (Hres : outcome (resolveSubnetIDsViaNameOrIDSlice t tokens)
                   = Err (ErrSubnetsNotFound tokens (subnetIDs entries))).
    { rewrite resolveSubnetIDsViaNameOrIDSlice_outcome, Hfound.
      by rewrite decide_False by lia. }
    split; [done|]. intros Hspec scheme.
    rewrite buildLoadBalancerSubnetMappings_explicit by (by rewrite Hspec).
    rewrite Hspec. unfold chooseSubnetNameOrIDs. simpl.
    by apply outcome_bind_Err.
  - assert (Hres : outcome (resolveSecurityGroupIDsViaNameOrIDSlice t tokens)
                   = Err (ErrSecurityGroupsNotFound tokens (securityGroupIDs entries))).
    { rewrite resolveSecurityGroupIDsViaNameOrIDSlice_outcome, Hfound.
      by rewrite decide_False by lia. }
    split; [done|]. intros Hspec cfg ipAddressType.
    rewrite buildLoadBalancerSecurityGroups_explicit by (by rewrite Hspec).
    rewrite Hspec. unfold chooseSGNameOrIDs. simpl.
    by apply outcome_bind_Err.
Qed.

(** One member asks for [subnet-1,subnet-2,subnet-1]; the two subnets
    exist, and the build fails. *)
Lemma repeated_tokens_witness :
  outcome (buildLoadBalancerSubnetMappings
             (Sample.task Sample.awesome
                [Sample.ingress [("subnets", "subnet-1,subnet-2,subnet-1")]] [])
             "internal")
  = Err (ErrSubnetsNotFound ["subnet-1"; "subnet-2"; "subnet-1"] ["subnet-1"; "subnet-2"]).
Proof.
  refine (proj2 (proj1 (repeated_tokens
            (Sample.task Sample.awesome
               [Sample.ingress [("subnets", "subnet-1,subnet-2,subnet-1")]] [])
            ["subnet-1"; "subnet-2"; "subnet-1"] _)
            (Sample.subnet <$> take 2 Sample.subnets) _ _) _ "internal").
  - intros Hnd. apply NoDup_cons in Hnd as [Hnotin _]. apply Hnotin. set_solver.
  - vm_compute. reflexivity.
  - vm_compute. reflexivity.
  - vm_compute. reflexivity.
Defined.

(** ** Map-valued fields: tags and attributes *)

(** The loop over the entries of one map, on any list of entries without
    a repeated key. *)
Lemma merge_entries_list (conflict : string → string → string → error)
    (kvs : list (string * string)) (merged : gmap string string) :
  NoDup kvs.*1 →
  match forEach (λ merged '(key, value),
                   match merged !! key with
                   | Some existingValue =>
                       if decide (existingValue ≠ value)
                       then Err (conflict key existingValue value)
                       else Ok (<[key := value]> merged)
                   | None => Ok (<[key := value]> merged)
                   end) merged kvs with
  | Ok merged' =>
      merged' = list_to_map kvs ∪ merged
      ∧ ∀ k v v', (k, v) ∈ kvs → merged !! k = Some v' → v' = v
  | Err e =>
      ∃ k v v', e = conflict k v' v ∧ (k, v) ∈ kvs ∧ merged !! k = Some v' ∧ v' ≠ v
  end.
Proof.
  revert merged. induction kvs as [|[k v] kvs IH]; intros merged Hnodup; simpl.
  - split; [by rewrite (left_id_L ∅ (∪))|]. intros k v v' Hin. by apply elem_of_nil in Hin.
  - apply NoDup_cons in Hnodup as [Hk Hnodup].
    assert (Hstep : ∀ k2 v2, (k2, v2) ∈ kvs → <[k:=v]> merged !! k2 = merged !! k2).
    { intros k2 v2 Hin. apply lookup_insert_ne. intros ->. apply Hk.
      apply list_elem_of_fmap. by exists (k2, v2). }
    assert (Hfresh : (list_to_map kvs : gmap string string) !! k = None).
    { by apply not_elem_of_list_to_map_1. }
    destruct (merged !! k) as [existing|] eqn:Hlook.
    + destruct (decide (existing ≠ v)) as [Hne|Heq].
      * exists k, v, existing. repeat split; [left|done..].
      * apply dec_stable in Heq as ->.
        specialize (IH (<[k:=v]> merged) Hnodup).
        destruct (forEach _ _ kvs) as [merged'|e].
        -- destruct IH as [-> Hcompat]. split.
           ++ by rewrite <- insert_union_r, insert_union_l.
           ++ intros k2 v2 v2' [[= -> ->] | Hin]%elem_of_cons Hl; [congruence|].
              apply (Hcompat k2 v2 v2' Hin). by rewrite (Hstep k2 v2).
        -- destruct IH as (k2 & v2 & v2' & -> & Hin & Hl & Hne).
           exists k2, v2, v2'. repeat split; [by right| |done].
           by rewrite <- (Hstep k2 v2).
    + specialize (IH (<[k:=v]> merged) Hnodup).
      destruct (forEach _ _ kvs) as [merged'|e].
      * destruct IH as [-> Hcompat]. split.
        -- by rewrite <- insert_union_r, insert_union_l.
        -- intros k2 v2 v2' [[= -> ->] | Hin]%elem_of_cons Hl; [congruence|].
           apply (Hcompat k2 v2 v2' Hin). by rewrite (Hstep k2 v2).
      * destruct IH as (k2 & v2 & v2' & -> & Hin & Hl & Hne).
        exists k2, v2, v2'. repeat split; [by right| |done].
        by rewrite <- (Hstep k2 v2).
Qed.

Lemma mergeEntries_cases (conflict : string → string → string → error)
    (merged raw : gmap string string) :
  match mergeEntries conflict merged raw with
  | Ok merged' =>
      merged' = raw ∪ merged
      ∧ ∀ k v v', raw !! k = Some v → merged !! k = Some v' → v' = v
  | Err e =>
      ∃ k v v', e = conflict k v' v ∧ raw !! k = Some v ∧ merged !! k = Some v' ∧ v' ≠ v
  end.
Proof.
  unfold mergeEntries.
  pose proof (merge_entries_list conflict (map_to_list raw) merged
                (NoDup_fst_map_to_list raw)) as Hlist.
  destruct (forEach _ _ (map_to_list raw)) as [merged'|e].
  - destruct Hlist as [-> Hcompat]. rewrite list_to_map_to_list. split; [done|].
    intros k v v' Hraw. apply Hcompat. by apply elem_of_map_to_list.
  - destruct Hlist as (k & v & v' & -> & Hin & Hl & Hne).
    exists k, v, v'. repeat split; try done. by apply elem_of_map_to_list.
Qed.

Lemma given_cons (m : gmap string string) (maps : list (gmap string string)) (k v : string) :
  given (m :: maps) k v ↔ m !! k = Some v ∨ given maps k v.
Proof.
  unfold given. split.
  - intros (m' & [-> | Hin]%elem_of_cons & Hl); [by left|right; by exists m'].
  - intros [Hl | (m' & Hin & Hl)]; [exists m|exists m']; (split; [set_solver|done]).
Qed.

Lemma given_nil (k v : string) : ¬ given [] k v.
Proof. intros (m & Hin & _). by apply elem_of_nil in Hin. Qed.

(** The loop over the members, from any merged map. *)
Lemma merge_members (conflict : string → string → string → error)
    (parse : Ingress → result (option (gmap string string)))
    (members : list Ingress) (maps : list (gmap string string)) :
  Forall2 (λ ing m, ∃ raw, parse ing = Ok raw ∧ m = default ∅ raw) members maps →
  ∀ acc,
  match forEach (λ merged ing,
                   raw ← parse ing; mergeEntries conflict merged (default ∅ raw))
                acc members with
  | Ok merged => ∀ k v, merged !! k = Some v ↔ acc !! k = Some v ∨ given maps k v
  | Err e =>
      ∃ k v1 v2, e = conflict k v1 v2 ∧ v1 ≠ v2
                 ∧ (acc !! k = Some v1 ∨ given maps k v1) ∧ given maps k v2
  end.
Proof.
  induction 1 as [|ing m members maps (raw & Hparse & ->) _ IH]; intros acc; simpl.
  - intros k v. split; [by left|]. intros [?|?%given_nil]; done.
  - rewrite Hparse. cbn [mbind result_bind].
    pose proof (mergeEntries_cases conflict acc (default ∅ raw)) as Hcases.
    destruct (mergeEntries conflict acc (default ∅ raw)) as [acc'|e].
    + destruct Hcases as [-> Hcompat]. specialize (IH (default ∅ raw ∪ acc)).
      destruct (forEach _ _ members) as [merged|e].
      * intros k v. rewrite IH, given_cons, lookup_union_Some_raw. split.
        -- intros [[? | [_ ?]] | ?]; auto.
        -- intros [Hacc | [? | ?]]; auto.
           destruct (default ∅ raw !! k) as [v'|] eqn:Hl; [|auto].
           left; left. f_equal. symmetry. by apply (Hcompat k v' v).
      * destruct IH as (k & v1 & v2 & -> & Hne & Hleft & Hright).
        exists k, v1, v2. rewrite !given_cons. repeat split; [done| |by right].
        destruct Hleft as [[? | [_ ?]]%lookup_union_Some_raw | ?]; auto.
    + destruct Hcases as (k & v & v' & -> & Hl & Hacc & Hne).
      exists k, v', v. rewrite !given_cons. repeat split; auto.
Qed.

Lemma merge_members_consistent (conflict : string → string → string → error)
    (parse : Ingress → result (option (gmap string string)))
    (members : list Ingress) (maps : list (gmap string string)) :
  Forall2 (λ ing m, ∃ raw, parse ing = Ok raw ∧ m = default ∅ raw) members maps →
  (consistent maps →
     ∃ merged,
       forEach (λ merged ing,
                  raw ← parse ing; mergeEntries conflict merged (default ∅ raw))
               ∅ members = Ok merged
       ∧ ∀ k v, merged !! k = Some v ↔ given maps k v)
  ∧ (¬ consistent maps →
     ∃ k v1 v2,
       forEach (λ merged ing,
                  raw ← parse ing; mergeEntries conflict merged (default ∅ raw))
               ∅ members = Err (conflict k v1 v2)
       ∧ v1 ≠ v2 ∧ given maps k v1 ∧ given maps k v2).
Proof.
  intros Hparse. pose proof (merge_members conflict parse members maps Hparse ∅) as Hrun.
  destruct (forEach _ _ members) as [merged|e].
  - assert (Hmerged : ∀ k v, merged !! k = Some v ↔ given maps k v).
    { intros k v. rewrite Hrun, lookup_empty. naive_solver. }
    split.
    + intros _. by exists merged.
    + intros Hnot. destruct Hnot. intros m1 m2 k v1 v2 H1 H2 Hl1 Hl2.
      assert (merged !! k = Some v1) as E1 by (apply Hmerged; by exists m1).
      assert (merged !! k = Some v2) as E2 by (apply Hmerged; by exists m2).
      congruence.
  - destruct Hrun as (k & v1 & v2 & -> & Hne & Hleft & Hright).
    rewrite lookup_empty in Hleft. destruct Hleft as [?|Hleft]; [done|].
    split.
    + intros Hcons. destruct Hne.
      destruct Hleft as (m1 & ? & ?), Hright as (m2 & ? & ?).
      by apply (Hcons m1 m2 k).
    + intros _. by exists k, v1, v2.
Qed.




(** ** The name generator *)

Lemma chars_app (a b : string) : chars (a +:+ b) = chars a ++ chars b.
Proof. unfold chars. induction a as [|c a IH]; simpl; [done|]. by rewrite IH. Qed.

Lemma bytes_of_string_app (a b : string) :
  bytes_of_string (a +:+ b) = bytes_of_string a ++ bytes_of_string b.
Proof.
  unfold bytes_of_string. fold (chars (a +:+ b)) (chars a) (chars b).
  by rewrite chars_app, fmap_app.
Qed.

Lemma ReplaceAllString_sanitize (s : string) :
  ReplaceAllString invalidLoadBalancerNamePattern s "" = sanitize s.
Proof.
  unfold sanitize, chars. induction s as [|c s IH]; simpl; [done|].
  destruct (alnum c) eqn:Hc; simpl.
  - rewrite filter_cons_True by done. simpl. by rewrite IH.
  - rewrite filter_cons_False by (by rewrite Hc). by rewrite IH.
Qed.

Lemma chars_sanitize (s : string) : chars (sanitize s) = filter (λ c, alnum c = true) (chars s).
Proof. unfold sanitize, chars. by rewrite list_ascii_of_string_of_list_ascii. Qed.

Lemma chars_truncate (n : nat) (s : string) : chars (truncate n s) = take n (chars s).
Proof.
  unfold chars. revert s. induction n as [|n IH]; intros [|c s]; simpl; try done.
  by rewrite IH.
Qed.

Lemma length_chars (s : string) : length (chars s) = String.length s.
Proof. unfold chars. induction s as [|c s IH]; simpl; [done|]. by rewrite IH. Qed.

Lemma buildLoadBalancerName_generatedName `{P : Packages} (t : defaultModelBuildTask)
    (scheme : string) :
  buildLoadBalancerName t scheme = generatedName (clusterName t) (ID (ingGroup t)) scheme.
Proof.
  unfold buildLoadBalancerName, generatedName, hexdigest.
  by rewrite !ReplaceAllString_sanitize, !bytes_of_string_app.
Qed.

(** C6. The generated name is a function of the cluster name, the group
    identity and the scheme alone, defined for all of them: it is the
    prefix [k8s-], then for an explicit group the sanitized name cut at
    17 characters, for a derived group the sanitized namespace and the
    sanitized name each cut at 8 and separated by [-], then [-] and the
    first 10 characters of the digest. The digest is the SHA-256 hash, in
    hexadecimal, of the three inputs one after the other, and the
    sanitized form of a string is what is left of it once every character
    that is not alphanumeric is deleted. *)
Theorem name_generation `{P : Packages} :
  (∀ t scheme,
     buildLoadBalancerName t scheme
     = generatedName (clusterName t) (ID (ingGroup t)) scheme)
  ∧ (∀ t1 t2 scheme,
       clusterName t1 = clusterName t2 → ID (ingGroup t1) = ID (ingGroup t2) →
       buildLoadBalancerName t1 scheme = buildLoadBalancerName t2 scheme)
  ∧ (∀ s, chars (ReplaceAllString invalidLoadBalancerNamePattern s "")
          = filter (λ c, alnum c = true) (chars s))
  ∧ (∀ n s, chars (truncate n s) = take n (chars s)).
Proof.
  split; [|split; [|split]].
  - apply @buildLoadBalancerName_generatedName.
  - intros t1 t2 scheme Hcluster Hid.
    by rewrite !buildLoadBalancerName_generatedName, Hcluster, Hid.
  - intros s. by rewrite ReplaceAllString_sanitize, chars_sanitize.
  - apply chars_truncate.
Qed.

(** The names of an explicit and of a derived group of the sample
    cluster; the digests are those that SHA-256 gives to
    [my-clusterawesome-groupinternet-facing] and to
    [my-clusterns-1/ing-1internal]. *)
Lemma name_generation_witness :
  buildLoadBalancerName (Sample.task Sample.awesome [] []) "internet-facing"
    = "k8s-awesomegroup-f4076d2070"
  ∧ buildLoadBalancerName
      (Sample.task {| Namespace := "ns-1"; Name := "ing-1" |} [] []) "internal"
    = "k8s-ns1-ing1-68e6100f1b".
Proof.
  split.
  - rewrite (proj1 name_generation). vm_compute. reflexivity.
  - rewrite (proj1 name_generation). vm_compute. reflexivity.
Defined.

(** ** The characters of the name *)

Lemma hexdigit_alnum (n : Z) : 0 ≤ n < 16 → alnum (hexdigit n) = true.
Proof.
  intros Hn.
  assert (Hcases : n = 0 ∨ n = 1 ∨ n = 2 ∨ n = 3 ∨ n = 4 ∨ n = 5 ∨ n = 6 ∨ n = 7
                   ∨ n = 8 ∨ n = 9 ∨ n = 10 ∨ n = 11 ∨ n = 12 ∨ n = 13 ∨ n = 14 ∨ n = 15)
    by lia.
  repeat (destruct Hcases as [-> | Hcases]; [reflexivity|]). by subst.
Qed.

Lemma EncodeToString_alnum (bs : list Z) :
  Forall (λ b, 0 ≤ b < 256) bs →
  Forall (λ c, alnum c = true) (chars (EncodeToString bs)).
Proof.
  induction 1 as [|b bs Hb _ IH]; simpl; [constructor|].
  constructor; [|constructor; [|exact IH]].
  - apply hexdigit_alnum. rewrite Z.shiftr_div_pow2 by lia.
    change (2 ^ 4) with 16. split; [apply Z.div_pos; lia|].
    apply Z.div_lt_upper_bound; lia.
  - apply hexdigit_alnum. change 15 with (Z.ones 4).
    rewrite Z.land_ones by lia. change (2 ^ 4) with 16. apply Z.mod_pos_bound. lia.
Qed.

Lemma be_bytes_range (n : nat) (x : Z) : Forall (λ b, 0 ≤ b < 256) (SHA256.be_bytes n x).
Proof.
  induction n as [|n IH]; simpl; constructor; [|exact IH].
  apply Z.mod_pos_bound. lia.
Qed.

Lemma Sum256_range (msg : list Z) : Forall (λ b, 0 ≤ b < 256) (SHA256.Sum256 msg).
Proof.
  unfold SHA256.Sum256. apply Forall_forall. intros b Hb.
  apply list_elem_of_join in Hb as (bs & Hb & Hbs).
  apply list_elem_of_fmap in Hbs as (w & -> & _).
  revert b Hb. apply Forall_forall, be_bytes_range.
Qed.

Lemma hexdigest_alnum (cluster id scheme : string) :
  Forall (λ c, alnum c = true) (chars (hexdigest cluster id scheme)).
Proof. apply EncodeToString_alnum, Sum256_range. Qed.

Lemma sanitize_alnum (s : string) : Forall (λ c, alnum c = true) (chars (sanitize s)).
Proof.
  rewrite chars_sanitize. apply Forall_forall. intros c Hc.
  by apply list_elem_of_filter in Hc as [Hc _].
Qed.

Lemma truncate_alnum (n : nat) (s : string) :
  Forall (λ c, alnum c = true) (chars s) →
  Forall (λ c, alnum c = true) (chars (truncate n s)).
Proof. rewrite chars_truncate. apply Forall_take. Qed.

Lemma length_truncate (n : nat) (s : string) :
  String.length (truncate n s) = (n `min` String.length s)%nat.
Proof. by rewrite <- !length_chars, chars_truncate, length_take. Qed.

Lemma nameChar_alnum (l : list ascii) : Forall (λ c, alnum c = true) l → Forall nameChar l.
Proof. intros Hl. eapply Forall_impl; [exact Hl|]. intros c Hc. by left. Qed.

Lemma generatedName_chars `{P : Packages} (cluster : string) (id : GroupID)
    (scheme : string) :
  Forall nameChar (chars (generatedName cluster id scheme)).
Proof.
  assert (Hprefix : Forall nameChar (chars "k8s-")).
  { repeat constructor; by right. }
  assert (Hsep : Forall nameChar (chars "-")).
  { repeat constructor; by right. }
  unfold generatedName. destruct (GroupID_IsExplicit id).
  - rewrite !chars_app. repeat (apply Forall_app; split); try done;
      apply nameChar_alnum, truncate_alnum;
      (apply sanitize_alnum || apply hexdigest_alnum).
  - rewrite !chars_app. repeat (apply Forall_app; split); try done;
      apply nameChar_alnum, truncate_alnum;
      (apply sanitize_alnum || apply hexdigest_alnum).
Qed.

Lemma filter_none {A} (Q : A → Prop) `{∀ x, Decision (Q x)} (l : list A) :
  Forall (λ x, ¬ Q x) l → filter Q l = [].
Proof.
  induction 1 as [|x l Hx _ IH]; [done|]. by rewrite filter_cons_False, IH.
Qed.

Lemma no_separator (l : list ascii) :
  Forall (λ c, alnum c = true) l → filter (λ c, alnum c ≠ true) l = [].
Proof.
  intros Hl. apply filter_none. eapply Forall_impl; [exact Hl|]. intros c Hc Hne. done.
Qed.

(** C7, as the code has it. The generated name is the prefix [k8s-], the
    parts that come from the group identity, and the first 10 digits of
    the digest, with one [-] after the prefix and one before the digest,
    and one more between namespace and name for a derived group. The
    part that comes from an explicit name is the first 17 alphanumeric
    characters of the name, all of them when there are fewer; the parts
    of a derived group are the first 8 alphanumeric characters of the
    namespace and of the name. The parts and the digits are alphanumeric,
    so the characters of the name that are not alphanumeric are exactly
    the separators of the format: two for an explicit group, three for a
    derived one, whatever the identity holds. *)
Theorem name_characters `{P : Packages} (t : defaultModelBuildTask) (scheme : string) :
  let id := ID (ingGroup t) in
  let name := buildLoadBalancerName t scheme in
  let digest := truncate 10 (hexdigest (clusterName t) (GroupID_String id) scheme) in
  Forall nameChar (chars name)
  ∧ Forall (λ c, alnum c = true) (chars digest)
  ∧ (GroupID_IsExplicit id = true →
     let payload := truncate 17 (sanitize (Name id)) in
     name = "k8s-" +:+ payload +:+ "-" +:+ digest
     ∧ chars payload = take 17 (filter (λ c, alnum c = true) (chars (Name id)))
     ∧ String.length payload = (17 `min` String.length (sanitize (Name id)))%nat
     ∧ Forall (λ c, alnum c = true) (chars payload)
     ∧ filter (λ c, alnum c ≠ true) (chars name) = ["-"; "-"]%char)
  ∧ (GroupID_IsExplicit id = false →
     let namespace := truncate 8 (sanitize (Namespace id)) in
     let payload := truncate 8 (sanitize (Name id)) in
     name = "k8s-" +:+ namespace +:+ "-" +:+ payload +:+ "-" +:+ digest
     ∧ chars namespace = take 8 (filter (λ c, alnum c = true) (chars (Namespace id)))
     ∧ chars payload = take 8 (filter (λ c, alnum c = true) (chars (Name id)))
     ∧ Forall (λ c, alnum c = true) (chars namespace)
     ∧ Forall (λ c, alnum c = true) (chars payload)
     ∧ filter (λ c, alnum c ≠ true) (chars name) = ["-"; "-"; "-"]%char).
Proof.
  intros id name digest. unfold name, digest, id.
  rewrite buildLoadBalancerName_generatedName.
  assert (Hdigest : Forall (λ c, alnum c = true)
            (chars (truncate 10 (hexdigest (clusterName t)
                                   (GroupID_String (ID (ingGroup t))) scheme)))).
  { apply truncate_alnum, hexdigest_alnum. }
  assert (Hpart : ∀ n s, Forall (λ c, alnum c = true) (chars (truncate n (sanitize s)))).
  { intros n s. apply truncate_alnum, sanitize_alnum. }
  split; [apply generatedName_chars|]. split; [exact Hdigest|]. split.
  - intros Hexplicit. unfold generatedName. rewrite Hexplicit.
    split; [done|]. split; [|split; [|split]].
    + by rewrite chars_truncate, chars_sanitize.
    + apply length_truncate.
    + apply Hpart.
    + rewrite !chars_app, !filter_app.
      rewrite (no_separator _ (Hpart 17%nat _)), (no_separator _ Hdigest). reflexivity.
  - intros Hderived. unfold generatedName. rewrite Hderived.
    split; [done|]. split; [|split; [|split; [|split]]].
    + by rewrite chars_truncate, chars_sanitize.
    + by rewrite chars_truncate, chars_sanitize.
    + apply Hpart.
    + apply Hpart.
    + rewrite !chars_app, !filter_app.
      rewrite !(no_separator _ (Hpart 8%nat _)), (no_separator _ Hdigest). reflexivity.
Qed.

(** The explicit group [my-awesome-ingress-group] of the sample cluster:
    24 characters, of which 21 are alphanumeric; the name holds the
    first 17 of them. The derived group [ns-1/ing-1]: the [-] of the
    namespace and of the name are deleted, and the three [-] of the
    generated name are those of the format. *)
Lemma name_characters_witness :
  buildLoadBalancerName
    (Sample.task {| Namespace := ""; Name := "my-awesome-ingress-group" |} [] []) "internal"
  = "k8s-myawesomeingressg-a223bfe9ea"
  ∧ buildLoadBalancerName
      (Sample.task {| Namespace := "ns-1"; Name := "ing-1" |} [] []) "internal"
    = "k8s-ns1-ing1-68e6100f1b"
  ∧ filter (λ c, alnum c ≠ true)
      (chars (buildLoadBalancerName
                (Sample.task {| Namespace := "ns-1"; Name := "ing-1" |} [] []) "internal"))
    = ["-"; "-"; "-"]%char.
Proof.
  split; [|split].
  - rewrite (proj1 (proj1 (proj2 (proj2 (name_characters
               (Sample.task {| Namespace := ""; Name := "my-awesome-ingress-group" |} [] [])
               "internal"))) eq_refl)).
    vm_compute. reflexivity.
  - rewrite (proj1 (proj2 (proj2 (proj2 (name_characters
               (Sample.task {| Namespace := "ns-1"; Name := "ing-1" |} [] [])
               "internal"))) eq_refl)).
    vm_compute. reflexivity.
  - refine (proj2 (proj2 (proj2 (proj2 (proj2 (proj2 (proj2 (proj2 (name_characters
               (Sample.task {| Namespace := "ns-1"; Name := "ing-1" |} [] [])
               "internal"))) _)))))).
    reflexivity.
Defined.

(** C7 fails as it is written: the separators of the format are not
    alphanumeric and are in every generated name; and a name of more than
    17 characters gives fewer than 17 characters to the generated name
    when fewer than 17 of its characters are alphanumeric. *)
Lemma name_characters_counterexample :
  buildLoadBalancerName (Sample.task Sample.awesome [] []) "internet-facing"
    = "k8s-awesomegroup-f4076d2070"
  ∧ "-"%char ∈ chars (buildLoadBalancerName (Sample.task Sample.awesome [] [])
                        "internet-facing")
  ∧ alnum "-" = false
  ∧ String.length "a-b-c-d-e-f-g-h-i-j" = 19%nat
  ∧ buildLoadBalancerName
      (Sample.task {| Namespace := ""; Name := "a-b-c-d-e-f-g-h-i-j" |} [] []) "internal"
    = "k8s-abcdefghij-365a0aa79f".
Proof.
  assert (Hname : buildLoadBalancerName (Sample.task Sample.awesome [] []) "internet-facing"
                  = "k8s-awesomegroup-f4076d2070") by (vm_compute; reflexivity).
  split; [done|]. split; [|split; [|split]].
  - rewrite Hname. unfold chars. simpl. do 3 constructor 2. constructor 1.
  - reflexivity.
  - reflexivity.
  - vm_compute. reflexivity.
Qed.

(** * Further properties of the builder *)

(** ** The length of the name *)

Lemma round_length (stw : list Z * list Z) (k : Z) :
  length stw.1 = 8%nat → length (SHA256.round stw k).1 = 8%nat.
Proof.
  destruct stw as [st w]. simpl. intros Hlen.
  do 9 (destruct st as [|? st]; try discriminate Hlen). reflexivity.
Qed.

Lemma rounds_length (ks : list Z) (stw : list Z * list Z) :
  length stw.1 = 8%nat → length (foldl SHA256.round stw ks).1 = 8%nat.
Proof.
  revert stw. induction ks as [|k ks IH]; intros stw Hlen; simpl; [done|].
  by apply IH, round_length.
Qed.

Lemma compress_length (h block : list Z) :
  length h = 8%nat → length (SHA256.compress h block) = 8%nat.
Proof.
  intros Hlen. unfold SHA256.compress.
  rewrite length_zip_with, (rounds_length SHA256.K (h, SHA256.words block) Hlen). lia.
Qed.

Lemma Sum256_length (msg : list Z) : length (SHA256.Sum256 msg) = 32%nat.
Proof.
  unfold SHA256.Sum256.
  assert (Hstate : ∀ blocks h, length h = 8%nat →
            length (foldl SHA256.compress h blocks) = 8%nat).
  { induction blocks as [|b blocks IH]; intros h Hh; simpl; [done|].
    by apply IH, compress_length. }
  specialize (Hstate (SHA256.chunks (length (SHA256.pad msg)) 64 (SHA256.pad msg))
                SHA256.H0 eq_refl).
  revert Hstate. generalize (foldl SHA256.compress SHA256.H0
    (SHA256.chunks (length (SHA256.pad msg)) 64 (SHA256.pad msg))).
  intros st Hst. do 9 (destruct st as [|? st]; try discriminate Hst). reflexivity.
Qed.

Lemma EncodeToString_length (bs : list Z) :
  String.length (EncodeToString bs) = (2 * length bs)%nat.
Proof. induction bs as [|b bs IH]; simpl; [done|]. rewrite IH. lia. Qed.

Lemma hexdigest_length (cluster id scheme : string) :
  String.length (hexdigest cluster id scheme) = 64%nat.
Proof. unfold hexdigest. by rewrite EncodeToString_length, Sum256_length. Qed.

Lemma length_app_string (a b : string) :
  String.length (a +:+ b) = (String.length a + String.length b)%nat.
Proof. by rewrite <- !length_chars, chars_app, length_app. Qed.

(** X1. The generated name has at most 32 characters, whatever the
    cluster name, the group identity and the scheme: 4 for the prefix, at
    most 17 for an explicit name, or at most 8 and 8 and a separator for
    a namespace and a name, then a separator and exactly 10 digits of the
    digest, which has 64. *)
Theorem name_length `{P : Packages} (t : defaultModelBuildTask) (scheme : string) :
  (String.length (buildLoadBalancerName t scheme) ≤ 32)%nat
  ∧ String.length (hexdigest (clusterName t) (GroupID_String (ID (ingGroup t))) scheme)
    = 64%nat
  ∧ String.length (buildLoadBalancerName t scheme)
    = if GroupID_IsExplicit (ID (ingGroup t))
      then (15 + 17 `min` String.length (sanitize (Name (ID (ingGroup t)))))%nat
      else (16 + 8 `min` String.length (sanitize (Namespace (ID (ingGroup t))))
               + 8 `min` String.length (sanitize (Name (ID (ingGroup t)))))%nat.
Proof.
  assert (Hlen : String.length (buildLoadBalancerName t scheme)
    = if GroupID_IsExplicit (ID (ingGroup t))
      then (15 + 17 `min` String.length (sanitize (Name (ID (ingGroup t)))))%nat
      else (16 + 8 `min` String.length (sanitize (Namespace (ID (ingGroup t))))
               + 8 `min` String.length (sanitize (Name (ID (ingGroup t)))))%nat).
  { rewrite buildLoadBalancerName_generatedName. unfold generatedName.
    destruct (GroupID_IsExplicit (ID (ingGroup t)));
      rewrite !length_app_string, !length_truncate, hexdigest_length; simpl; lia. }
  split; [|split; [apply hexdigest_length|exact Hlen]].
  rewrite Hlen. destruct (GroupID_IsExplicit (ID (ingGroup t))); lia.
Qed.

(** ** Sanitizing *)

Lemma string_of_chars (s : string) : string_of_list_ascii (chars s) = s.
Proof. apply string_of_list_ascii_of_string. Qed.

Lemma filter_all {A} (Q : A → Prop) `{∀ x, Decision (Q x)} (l : list A) :
  Forall Q l → filter Q l = l.
Proof.
  induction 1 as [|x l Hx _ IH]; [done|]. by rewrite filter_cons_True, IH.
Qed.

(** X2. Deleting the characters that match [invalidLoadBalancerNamePattern]
    never makes a string longer, does nothing to a string of letters and
    digits, and only such strings are left as they are; deleting twice is
    deleting once. *)
Theorem sanitizing_alphanumeric (s : string) :
  let sanitized := ReplaceAllString invalidLoadBalancerNamePattern s "" in
  (String.length sanitized ≤ String.length s)%nat
  ∧ (sanitized = s ↔ Forall (λ c, alnum c = true) (chars s))
  ∧ ReplaceAllString invalidLoadBalancerNamePattern sanitized "" = sanitized.
Proof.
  intros sanitized. unfold sanitized. rewrite !ReplaceAllString_sanitize.
  split; [|split].
  - rewrite <- !length_chars, chars_sanitize. apply length_filter.
  - split.
    + intros Heq. rewrite <- Heq. apply sanitize_alnum.
    + intros Hall. unfold sanitize. rewrite filter_all by done. apply string_of_chars.
  - unfold sanitize at 1. rewrite (filter_all _ _ (sanitize_alnum s)).
    apply string_of_chars.
Qed.

(** ** The lookups of a resolver *)

Lemma resolver_run `{P : Packages} {A} (tokens ids names : list string) (c1 c2 : Call)
    (r1 r2 : result (list A)) (getID : A → string)
    (notFound : list string → list string → error) :
  let check entries :=
    if decide (length entries = length tokens) then Ok (getID <$> entries)
    else Err (notFound tokens (getID <$> entries)) in
  resolver tokens ids names c1 c2 r1 r2 getID notFound =
    match ids, names with
    | [], [] => ([], check [])
    | _ :: _, [] =>
        match r1 with Ok a => ([c1], check a) | Err e => ([c1], Err e) end
    | [], _ :: _ =>
        match r2 with Ok b => ([c2], check b) | Err e => ([c2], Err e) end
    | _ :: _, _ :: _ =>
        match r1 with
        | Ok a =>
            match r2 with
            | Ok b => ([c1; c2], check (a ++ b))
            | Err e => ([c1; c2], Err e)
            end
        | Err e => ([c1], Err e)
        end
    end.
Proof.
  intros check. unfold check, resolver.
  unfold call, throw, mbind, M_bind, result_bind, mret, M_ret.
  destruct ids as [|i ids], names as [|n names], r1 as [byID|e1], r2 as [byName|e2];
    simpl; try done;
    rewrite ?foldl_snoc, ?app_nil_r; simpl; rewrite ?length_fmap;
    repeat case_decide; simpl in *; try done; try lia.
Qed.

(** X3. A resolver makes no call for an empty list of tokens and returns
    the empty list. Otherwise it asks first for the tokens that are
    identifiers, if any, then for the names, if any, within the VPC of
    the task: its calls are the lookup by identifier alone when there is
    no name, the lookup by name alone when there is no identifier, and
    the lookup by identifier followed by the lookup by name when there
    are both and the first lookup returns entries. An error of a lookup
    is returned as it is, and after an error of the first lookup the
    second is not made. *)
Theorem resolver_lookups `{P : Packages} (t : defaultModelBuildTask) (tokens : list string) :
  let ids := filter (isID "subnet-") tokens in
  let names := filter (λ token, ¬ isID "subnet-" token) tokens in
  let byIDs := subnetsByIDs ids in
  let byNames := subnetsByNames (vpcID t) names in
  let sgIDs := filter (isID "sg-") tokens in
  let sgNames := filter (λ token, ¬ isID "sg-" token) tokens in
  let sgByIDs := securityGroupsByIDs sgIDs in
  let sgByNames := securityGroupsByNames (vpcID t) sgNames in
  ( (tokens = [] → resolveSubnetIDsViaNameOrIDSlice t tokens = ([], Ok []))
  ∧ (ids ≠ [] → ∀ e, DescribeSubnetsAsList (ec2Client t) byIDs = Err e →
       resolveSubnetIDsViaNameOrIDSlice t tokens = ([CallDescribeSubnets byIDs], Err e))
  ∧ (ids ≠ [] → names ≠ [] → ∀ entries e,
       DescribeSubnetsAsList (ec2Client t) byIDs = Ok entries →
       DescribeSubnetsAsList (ec2Client t) byNames = Err e →
       resolveSubnetIDsViaNameOrIDSlice t tokens
       = ([CallDescribeSubnets byIDs; CallDescribeSubnets byNames], Err e))
  ∧ (ids = [] → names ≠ [] → ∀ e,
       DescribeSubnetsAsList (ec2Client t) byNames = Err e →
       resolveSubnetIDsViaNameOrIDSlice t tokens = ([CallDescribeSubnets byNames], Err e))
  ∧ calls (resolveSubnetIDsViaNameOrIDSlice t tokens)
      `sublist_of` [CallDescribeSubnets byIDs; CallDescribeSubnets byNames]
  ∧ (ids ≠ [] → names = [] →
       calls (resolveSubnetIDsViaNameOrIDSlice t tokens) = [CallDescribeSubnets byIDs])
  ∧ (ids = [] → names ≠ [] →
       calls (resolveSubnetIDsViaNameOrIDSlice t tokens) = [CallDescribeSubnets byNames])
  ∧ (ids ≠ [] → names ≠ [] → ∀ entries,
       DescribeSubnetsAsList (ec2Client t) byIDs = Ok entries →
       calls (resolveSubnetIDsViaNameOrIDSlice t tokens)
       = [CallDescribeSubnets byIDs; CallDescribeSubnets byNames]) )
  ∧
  ( (tokens = [] → resolveSecurityGroupIDsViaNameOrIDSlice t tokens = ([], Ok []))
  ∧ (sgIDs ≠ [] → ∀ e, DescribeSecurityGroupsAsList (ec2Client t) sgByIDs = Err e →
       resolveSecurityGroupIDsViaNameOrIDSlice t tokens
       = ([CallDescribeSecurityGroups sgByIDs], Err e))
  ∧ (sgIDs ≠ [] → sgNames ≠ [] → ∀ entries e,
       DescribeSecurityGroupsAsList (ec2Client t) sgByIDs = Ok entries →
       DescribeSecurityGroupsAsList (ec2Client t) sgByNames = Err e →
       resolveSecurityGroupIDsViaNameOrIDSlice t tokens
       = ([CallDescribeSecurityGroups sgByIDs; CallDescribeSecurityGroups sgByNames], Err e))
  ∧ (sgIDs = [] → sgNames ≠ [] → ∀ e,
       DescribeSecurityGroupsAsList (ec2Client t) sgByNames = Err e →
       resolveSecurityGroupIDsViaNameOrIDSlice t tokens
       = ([CallDescribeSecurityGroups sgByNames], Err e))
  ∧ calls (resolveSecurityGroupIDsViaNameOrIDSlice t tokens)
      `sublist_of` [CallDescribeSecurityGroups sgByIDs; CallDescribeSecurityGroups sgByNames]
  ∧ (sgIDs ≠ [] → sgNames = [] →
       calls (resolveSecurityGroupIDsViaNameOrIDSlice t tokens)
       = [CallDescribeSecurityGroups sgByIDs])
  ∧ (sgIDs = [] → sgNames ≠ [] →
       calls (resolveSecurityGroupIDsViaNameOrIDSlice t tokens)
       = [CallDescribeSecurityGroups sgByNames])
  ∧ (sgIDs ≠ [] → sgNames ≠ [] → ∀ entries,
       DescribeSecurityGroupsAsList (ec2Client t) sgByIDs = Ok entries →
       calls (resolveSecurityGroupIDsViaNameOrIDSlice t tokens)
       = [CallDescribeSecurityGroups sgByIDs; CallDescribeSecurityGroups sgByNames]) ).
Proof.
  intros ids names byIDs byNames sgIDs sgNames sgByIDs sgByNames. split.
  - rewrite resolveSubnetIDsViaNameOrIDSlice_resolver, resolver_run.
    fold ids names byIDs byNames. repeat split.
    + intros ->. reflexivity.
    + intros Hids e ->. destruct ids; [done|]. by destruct names.
    + intros Hids Hnames entries e -> ->. destruct ids; [done|]. by destruct names.
    + intros -> Hnames e ->. by destruct names.
    + unfold calls.
      destruct ids, names,
        (DescribeSubnetsAsList (ec2Client t) byIDs),
        (DescribeSubnetsAsList (ec2Client t) byNames); simpl;
        repeat (first [apply sublist_nil | apply sublist_skip | apply sublist_cons]);
        by repeat constructor.
    + intros Hids ->. unfold calls. destruct ids; [done|].
      by destruct (DescribeSubnetsAsList (ec2Client t) byIDs).
    + intros -> Hnames. unfold calls. destruct names; [done|].
      by destruct (DescribeSubnetsAsList (ec2Client t) byNames).
    + intros Hids Hnames entries ->. unfold calls.
      destruct ids; [done|]. destruct names; [done|].
      by destruct (DescribeSubnetsAsList (ec2Client t) byNames).
  - rewrite resolveSecurityGroupIDsViaNameOrIDSlice_resolver, resolver_run.
    fold sgIDs sgNames sgByIDs sgByNames. repeat split.
    + intros ->. reflexivity.
    + intros Hids e ->. destruct sgIDs; [done|]. by destruct sgNames.
    + intros Hids Hnames entries e -> ->. destruct sgIDs; [done|]. by destruct sgNames.
    + intros -> Hnames e ->. by destruct sgNames.
    + unfold calls.
      destruct sgIDs, sgNames,
        (DescribeSecurityGroupsAsList (ec2Client t) sgByIDs),
        (DescribeSecurityGroupsAsList (ec2Client t) sgByNames); simpl;
        repeat (first [apply sublist_nil | apply sublist_skip | apply sublist_cons]);
        by repeat constructor.
    + intros Hids ->. unfold calls. destruct sgIDs; [done|].
      by destruct (DescribeSecurityGroupsAsList (ec2Client t) sgByIDs).
    + intros -> Hnames. unfold calls. destruct sgNames; [done|].
      by destruct (DescribeSecurityGroupsAsList (ec2Client t) sgByNames).
    + intros Hids Hnames entries ->. unfold calls.
      destruct sgIDs; [done|]. destruct sgNames; [done|].
      by destruct (DescribeSecurityGroupsAsList (ec2Client t) sgByNames).
Qed.

(** The client refuses the lookup by identifier of [subnet-1]: the lookup
    of the name [public-a] is not made. On the sample account both
    lookups are made, the identifier first although the name comes first
    in the list. *)
Lemma resolver_lookups_witness :
  resolveSubnetIDsViaNameOrIDSlice (Outage.task []) ["public-a"; "subnet-1"]
    = ([CallDescribeSubnets (subnetsByIDs ["subnet-1"])], Err Outage.refused)
  ∧ calls (resolveSubnetIDsViaNameOrIDSlice (Sample.task Sample.awesome [] [])
             ["public-a"; "subnet-2"])
    = [CallDescribeSubnets (subnetsByIDs ["subnet-2"]);
       CallDescribeSubnets (subnetsByNames "vpc-1" ["public-a"])].
Proof.
  split.
  - refine (proj1 (proj2 (proj1 (resolver_lookups (Outage.task [])
              ["public-a"; "subnet-1"]))) _ Outage.refused _).
    + vm_compute. discriminate.
    + reflexivity.
  - refine (proj2 (proj2 (proj2 (proj2 (proj2 (proj2 (proj2 (proj1 (resolver_lookups
              (Sample.task Sample.awesome [] []) ["public-a"; "subnet-2"]))))))))
              _ _ [Sample.subnet {| Sample.res_id := "subnet-2"; Sample.res_name := "public-b";
                                    Sample.res_vpc := "vpc-1"; Sample.res_az := "us-west-2b" |}]
              _).
    + vm_compute. discriminate.
    + vm_compute. discriminate.
    + vm_compute. reflexivity.
Defined.

(** ** The classification of the tokens *)

Lemma HasPrefix_spec (s prefix : string) :
  HasPrefix s prefix = true ↔ ∃ rest, s = prefix +:+ rest.
Proof.
  unfold HasPrefix. revert s. induction prefix as [|c prefix IH]; intros s; simpl.
  - destruct s; split; eauto.
  - destruct s as [|c' s]; simpl.
    + split; [done|]. by intros [rest ?].
    + destruct (ascii_dec c c') as [->|Hne].
      * rewrite IH. split; intros [rest Hrest]; exists rest.
        -- simpl. by rewrite Hrest.
        -- simpl in Hrest. by injection Hrest.
      * split; [done|]. intros [rest [= ? ?]]. done.
Qed.

(** X4. The split of a list of tokens loses no token and adds none: the
    identifiers are the tokens that start with the prefix, the names are
    the others, each kept in the order of the list, and together they are
    the list up to order. *)
Theorem tokens_partition (idPrefix : string) (tokens : list string) :
  let ids := (splitNameOrIDs idPrefix tokens).1 in
  let names := (splitNameOrIDs idPrefix tokens).2 in
  ids ++ names ≡ₚ tokens
  ∧ (length ids + length names = length tokens)%nat
  ∧ ids `sublist_of` tokens
  ∧ names `sublist_of` tokens
  ∧ (∀ token, token ∈ ids ↔ token ∈ tokens ∧ ∃ rest, token = idPrefix +:+ rest)
  ∧ (∀ token, token ∈ names ↔ token ∈ tokens ∧ ¬ ∃ rest, token = idPrefix +:+ rest).
Proof.
  rewrite splitNameOrIDs_filter. simpl.
  split; [apply filter_app_complement|].
  split; [apply length_split|].
  split; [apply sublist_filter|].
  split; [apply sublist_filter|].
  split; intros token; rewrite list_elem_of_filter; unfold isID;
    rewrite HasPrefix_spec; tauto.
Qed.

(** ** Explicit lists: the empty list, and the size and order of the result *)

Lemma chooseSubnetNameOrIDs_first (first : list string) (rest : list (list string))
    (chosen : list string) :
  chooseSubnetNameOrIDs (first :: rest) = Ok chosen → chosen = first.
Proof.
  unfold chooseSubnetNameOrIDs. simpl.
  destruct (forEach _ _ _); simpl; congruence.
Qed.

Lemma chooseSGNameOrIDs_first (first : list string) (rest : list (list string))
    (chosen : list string) :
  chooseSGNameOrIDs (first :: rest) = Ok chosen → chosen = first.
Proof.
  unfold chooseSGNameOrIDs. simpl.
  destruct (forEach _ _ _); simpl; congruence.
Qed.

(** X5. When the members that specify subnets (security groups) all
    specify the empty list, the build of the field succeeds with no
    subnet mapping (no security group) and calls no collaborator:
    discovery is not run and the minimum of two subnets is not asked for,
    and no managed security group is built. *)
Theorem empty_explicit_list `{P : Packages} (t : defaultModelBuildTask)
    (scheme ipAddressType : string) (cfg : gmap Z listenPortConfig) :
  (∀ rest, specifiedLists t IngressSuffixSubnets = [] :: rest →
     (∀ x, x ∈ rest → x = []) →
     buildLoadBalancerSubnetMappings t scheme = ([], Ok []))
  ∧ (∀ rest, specifiedLists t IngressSuffixSecurityGroups = [] :: rest →
       (∀ x, x ∈ rest → x = []) →
       buildLoadBalancerSecurityGroups t cfg ipAddressType = ([], Ok [])).
Proof.
  split; intros rest Hspec Hrest.
  - rewrite buildLoadBalancerSubnetMappings_explicit by (by rewrite Hspec).
    rewrite Hspec, chooseSubnetNameOrIDs_Ok; [reflexivity|].
    intros x Hx. by rewrite (Hrest x Hx).
  - rewrite buildLoadBalancerSecurityGroups_explicit by (by rewrite Hspec).
    rewrite Hspec, chooseSGNameOrIDs_Ok; [reflexivity|].
    intros x Hx. by rewrite (Hrest x Hx).
Qed.

(** A member has the annotation [subnets] with nothing in it, and
    discovery would find three subnets. *)
Lemma empty_explicit_list_witness :
  buildLoadBalancerSubnetMappings
    (Sample.task Sample.awesome [Sample.ingress [("subnets", "")]] Sample.subnets)
    "internal"
  = ([], Ok []).
Proof.
  refine (proj1 (empty_explicit_list
            (Sample.task Sample.awesome [Sample.ingress [("subnets", "")]] Sample.subnets)
            "internal" "ipv4" ∅) [] _ _).
  - vm_compute. reflexivity.
  - intros x Hx. by apply elem_of_nil in Hx.
Defined.

(** X6. A successful build from explicit lists returns one entry for each
    token of the first list: the identifiers of the entries that the
    lookups found for it, those of the lookup by identifier before those
    of the lookup by name, which need not be the order of the tokens. *)
Theorem explicit_result `{P : Packages} (t : defaultModelBuildTask)
    (scheme ipAddressType : string) (cfg : gmap Z listenPortConfig) :
  (∀ first rest mappings,
     specifiedLists t IngressSuffixSubnets = first :: rest →
     outcome (buildLoadBalancerSubnetMappings t scheme) = Ok mappings →
     length mappings = length first
     ∧ ∃ entries, foundSubnets t first = Ok entries
                  ∧ mappings = (λ id, {| SubnetID := id |}) <$> subnetIDs entries)
  ∧ (∀ first rest tokens,
       specifiedLists t IngressSuffixSecurityGroups = first :: rest →
       outcome (buildLoadBalancerSecurityGroups t cfg ipAddressType) = Ok tokens →
       length tokens = length first
       ∧ ∃ entries, foundSecurityGroups t first = Ok entries
                    ∧ tokens = LiteralStringToken <$> securityGroupIDs entries).
Proof.
  split.
  - intros first rest mappings Hspec.
    rewrite buildLoadBalancerSubnetMappings_explicit by (by rewrite Hspec).
    rewrite Hspec.
    destruct (chooseSubnetNameOrIDs (first :: rest)) as [chosen|e] eqn:Hchoose; [|done].
    apply chooseSubnetNameOrIDs_first in Hchoose as ->.
    intros (ids & Hids & Hret)%outcome_bind_inv.
    rewrite resolveSubnetIDsViaNameOrIDSlice_outcome in Hids.
    destruct (foundSubnets t first) as [entries|e]; [|done].
    destruct (decide (length entries = length first)) as [Hlen|]; [|done].
    injection Hids as <-. unfold outcome, mret, M_ret in Hret. simpl in Hret.
    rewrite buildLoadBalancerSubnetMappingsWithSubnetIDs_map in Hret.
    injection Hret as <-. split; [|by exists entries].
    unfold subnetIDs. by rewrite !length_fmap.
  - intros first rest tokens Hspec.
    rewrite buildLoadBalancerSecurityGroups_explicit by (by rewrite Hspec).
    rewrite Hspec.
    destruct (chooseSGNameOrIDs (first :: rest)) as [chosen|e] eqn:Hchoose; [|done].
    apply chooseSGNameOrIDs_first in Hchoose as ->.
    intros (ids & Hids & Hret)%outcome_bind_inv.
    rewrite resolveSecurityGroupIDsViaNameOrIDSlice_outcome in Hids.
    destruct (foundSecurityGroups t first) as [entries|e]; [|done].
    destruct (decide (length entries = length first)) as [Hlen|]; [|done].
    injection Hids as <-. unfold outcome, mret, M_ret in Hret. simpl in Hret.
    rewrite foldl_snoc in Hret. simpl in Hret.
    injection Hret as <-. split; [|by exists entries].
    unfold securityGroupIDs. by rewrite !length_fmap.
Qed.

(** A member asks for the name [public-a] and then for [subnet-2]: the
    mappings are those of [subnet-2] and then of [subnet-1], which is the
    subnet of that name. *)
Lemma explicit_result_witness :
  outcome (buildLoadBalancerSubnetMappings
             (Sample.task Sample.awesome
                [Sample.ingress [("subnets", "public-a,subnet-2")]] [])
             "internal")
    = Ok [ {| SubnetID := "subnet-2" |}; {| SubnetID := "subnet-1" |} ]
  ∧ length [ {| SubnetID := "subnet-2" |}; {| SubnetID := "subnet-1" |} ]
    = length ["public-a"; "subnet-2"].
Proof.
  assert (Hrun : outcome (buildLoadBalancerSubnetMappings
             (Sample.task Sample.awesome
                [Sample.ingress [("subnets", "public-a,subnet-2")]] [])
             "internal")
    = Ok [ {| SubnetID := "subnet-2" |}; {| SubnetID := "subnet-1" |} ])
    by (vm_compute; reflexivity).
  split; [exact Hrun|].
  refine (proj1 (proj1 (explicit_result
            (Sample.task Sample.awesome
               [Sample.ingress [("subnets", "public-a,subnet-2")]] [])
            "internal" "ipv4" ∅) ["public-a"; "subnet-2"] [] _ _ Hrun)).
  vm_compute. reflexivity.
Defined.

(** ** A map annotation that does not parse *)




(** ** What a built scheme or address family is *)

Lemma unanimous_or_not (l : list string) (x : string) :
  (∀ y, y ∈ l → y = x) ∨ (∃ y, y ∈ l ∧ y ≠ x).
Proof.
  induction l as [|z l IH].
  - left. intros y Hy. by apply elem_of_nil in Hy.
  - destruct (decide (z = x)) as [->|Hne].
    + destruct IH as [Hall|(y & Hy & Hne)].
      * left. intros y [->|Hy]%elem_of_cons; [done|by apply Hall].
      * right. exists y. split; [by right|done].
    + right. exists z. split; [by left|done].
Qed.

(** X8. A scheme that is built is the default of the task when no member
    specifies one; otherwise it is the one value that every member that
    specifies a scheme gives, and it is one of the two values of the
    field. The same holds for the address family. *)
Theorem built_single_value `{P : Packages} (t : defaultModelBuildTask) :
  (∀ scheme, buildLoadBalancerScheme t = Ok scheme →
     (specifiedStrings t IngressSuffixScheme = [] ∧ scheme = defaultScheme t)
     ∨ (scheme ∈ specifiedStrings t IngressSuffixScheme
        ∧ (∀ x, x ∈ specifiedStrings t IngressSuffixScheme → x = scheme)
        ∧ (scheme = LoadBalancerSchemeInternetFacing ∨ scheme = LoadBalancerSchemeInternal)))
  ∧ (∀ ipAddressType, buildLoadBalancerIPAddressType t = Ok ipAddressType →
       (specifiedStrings t IngressSuffixIPAddressType = []
        ∧ ipAddressType = defaultIPAddressType t)
       ∨ (ipAddressType ∈ specifiedStrings t IngressSuffixIPAddressType
          ∧ (∀ x, x ∈ specifiedStrings t IngressSuffixIPAddressType → x = ipAddressType)
          ∧ (ipAddressType = IPAddressTypeIPV4 ∨ ipAddressType = IPAddressTypeDualStack))).
Proof.
  split.
  - intros scheme Hbuilt.
    destruct (specifiedStrings t IngressSuffixScheme) as [|raw l] eqn:Hspec.
    + left. split; [done|]. rewrite scheme_default in Hbuilt by done. congruence.
    + right. destruct (unanimous_or_not (raw :: l) raw) as [Hall|(y & Hy & Hne)].
      * rewrite (scheme_single t raw) in Hbuilt by (rewrite Hspec; (by left) || done).
        repeat case_decide; [| |done]; injection Hbuilt as <-; subst raw;
          (split; [by left|split; [done|auto]]).
      * rewrite (scheme_conflict t raw y) in Hbuilt; [done| | |done]; rewrite Hspec;
          [by left|done].
  - intros ip Hbuilt.
    destruct (specifiedStrings t IngressSuffixIPAddressType) as [|raw l] eqn:Hspec.
    + left. split; [done|]. rewrite ip_default in Hbuilt by done. congruence.
    + right. destruct (unanimous_or_not (raw :: l) raw) as [Hall|(y & Hy & Hne)].
      * rewrite (ip_single t raw) in Hbuilt by (rewrite Hspec; (by left) || done).
        repeat case_decide; [| |done]; injection Hbuilt as <-; subst raw;
          (split; [by left|split; [done|auto]]).
      * rewrite (ip_conflict t raw y) in Hbuilt; [done| | |done]; rewrite Hspec;
          [by left|done].
Qed.

(** ** The calls of the whole build *)

Lemma calls_bind `{P : Packages} {A B} (m : M A) (f : A → M B) :
  calls (m ≫= f) = calls m ++ match outcome m with Ok a => calls (f a) | Err _ => [] end.
Proof.
  unfold calls, outcome, mbind, M_bind. destruct m as [cs [a|e]]; simpl; [done|].
  by rewrite app_nil_r.
Qed.

(** X9. The spec build calls no collaborator when the scheme or the
    address family cannot be built. Otherwise its calls are those of the
    build of the subnet mappings, followed, when that build succeeds, by
    those of the build of the security groups, and no other; the
    attributes and the tags are merged after these calls, so that a
    conflict in them is found once the calls are made. *)
Theorem build_calls `{P : Packages} (t : defaultModelBuildTask)
    (cfg : gmap Z listenPortConfig) :
  (is_Err (buildLoadBalancerScheme t) ∨ is_Err (buildLoadBalancerIPAddressType t) →
     calls (buildLoadBalancerSpec t cfg) = [])
  ∧ (∀ scheme ipAddressType,
       buildLoadBalancerScheme t = Ok scheme →
       buildLoadBalancerIPAddressType t = Ok ipAddressType →
       (is_Err (outcome (buildLoadBalancerSubnetMappings t scheme)) →
          calls (buildLoadBalancerSpec t cfg)
          = calls (buildLoadBalancerSubnetMappings t scheme))
       ∧ (is_Ok (outcome (buildLoadBalancerSubnetMappings t scheme)) →
          calls (buildLoadBalancerSpec t cfg)
          = calls (buildLoadBalancerSubnetMappings t scheme)
            ++ calls (buildLoadBalancerSecurityGroups t cfg ipAddressType))).
Proof.
  unfold buildLoadBalancerSpec. rewrite pure_bind. split.
  - intros [[e He] | [e He]].
    + by rewrite He.
    + destruct (buildLoadBalancerScheme t); [|done]. by rewrite pure_bind, He.
  - intros scheme ip Hs Hi. rewrite Hs. cbv beta iota. rewrite pure_bind, Hi.
    cbv beta iota. split.
    + intros [e He]. by rewrite calls_bind, He, app_nil_r.
    + intros [mappings Hm]. rewrite calls_bind, Hm. f_equal.
      rewrite calls_bind.
      destruct (outcome (buildLoadBalancerSecurityGroups t cfg ip)) as [sgs|e];
        [|by rewrite app_nil_r].
      rewrite !pure_bind.
      destruct (buildLoadBalancerAttributes t) as [attributes|e]; [|by rewrite app_nil_r].
      rewrite pure_bind.
      destruct (buildLoadBalancerTags t) as [tags|e]; by rewrite app_nil_r.
Qed.

(** Two members give the tag [a] two values and no member asks for
    subnets or security groups: the build fails on the tags after
    discovery was run and the managed security group was built. *)
Lemma build_calls_witness :
  calls (buildLoadBalancerSpec
           (Sample.task Sample.awesome
              [Sample.ingress [("tags", "a=1")]; Sample.ingress [("tags", "a=2")]]
              Sample.subnets) ∅)
  = calls (buildLoadBalancerSubnetMappings
             (Sample.task Sample.awesome
                [Sample.ingress [("tags", "a=1")]; Sample.ingress [("tags", "a=2")]]
                Sample.subnets) "internal")
    ++ [CallBuildManagedSecurityGroup ∅ "ipv4"]
  ∧ outcome (buildLoadBalancerSpec
               (Sample.task Sample.awesome
                  [Sample.ingress [("tags", "a=1")]; Sample.ingress [("tags", "a=2")]]
                  Sample.subnets) ∅)
    = Err (ErrConflictingTag "a" "1" "2").
Proof.
  split; [|vm_compute; reflexivity].
  refine (proj2 (proj2 (build_calls
            (Sample.task Sample.awesome
               [Sample.ingress [("tags", "a=1")]; Sample.ingress [("tags", "a=2")]]
               Sample.subnets) ∅) "internal" "ipv4" _ _) _).
  - vm_compute. reflexivity.
  - vm_compute. reflexivity.
  - eexists. vm_compute. reflexivity.
Defined.

(** ** The order of the members *)

Lemma given_Permutation (maps1 maps2 : list (gmap string string)) (k v : string) :
  maps1 ≡ₚ maps2 → given maps1 k v ↔ given maps2 k v.
Proof.
  intros Hperm. unfold given. split; intros (m & Hin & Hl); exists m;
    (split; [|done]); [by rewrite <- Hperm|by rewrite Hperm].
Qed.

Lemma consistent_Permutation (maps1 maps2 : list (gmap string string)) :
  maps1 ≡ₚ maps2 → consistent maps1 → consistent maps2.
Proof.
  intros Hperm Hcons m1 m2 k v1 v2 H1 H2. apply Hcons; by rewrite Hperm.
Qed.

(** X10. The scheme and the address family depend on the members only
    through the set of values that they specify: two groups that specify
    the same values, however often and in whatever order, get the same
    value or the same error. The merged tags of two groups whose members
    specify the same maps in different orders are the same when no key
    has two values, and are then the union of the maps; when some key
    has two values both merges fail, each with a conflict on a key to
    which the members give two different values. *)
Theorem member_order `{P : Packages} (t1 t2 : defaultModelBuildTask) :
  ((∀ v, v ∈ specifiedStrings t1 IngressSuffixScheme
         ↔ v ∈ specifiedStrings t2 IngressSuffixScheme) →
   defaultScheme t1 = defaultScheme t2 →
   buildLoadBalancerScheme t1 = buildLoadBalancerScheme t2)
  ∧ ((∀ v, v ∈ specifiedStrings t1 IngressSuffixIPAddressType
           ↔ v ∈ specifiedStrings t2 IngressSuffixIPAddressType) →
     defaultIPAddressType t1 = defaultIPAddressType t2 →
     buildLoadBalancerIPAddressType t1 = buildLoadBalancerIPAddressType t2)
  ∧ (∀ maps1 maps2,
       specifiesMaps t1 IngressSuffixTags maps1 →
       specifiesMaps t2 IngressSuffixTags maps2 →
       maps1 ≡ₚ maps2 →
       (consistent maps1 → buildLoadBalancerTags t1 = buildLoadBalancerTags t2)
       ∧ (is_Err (buildLoadBalancerTags t1) ↔ is_Err (buildLoadBalancerTags t2))
       ∧ (consistent maps1 →
          ∃ tags, buildLoadBalancerTags t1 = Ok tags ∧ buildLoadBalancerTags t2 = Ok tags
                  ∧ ∀ k v, tags !! k = Some v ↔ given maps1 k v)
       ∧ (¬ consistent maps1 →
          (∃ k v1 v2, buildLoadBalancerTags t1 = Err (ErrConflictingTag k v1 v2)
                      ∧ v1 ≠ v2 ∧ given maps1 k v1 ∧ given maps1 k v2)
          ∧ (∃ k v1 v2, buildLoadBalancerTags t2 = Err (ErrConflictingTag k v1 v2)
                        ∧ v1 ≠ v2 ∧ given maps1 k v1 ∧ given maps1 k v2))).
Proof.
  split; [|split].
  - intros Hsame Hdefault. unfold buildLoadBalancerScheme.
    rewrite !explicitSchemes_specified, Hdefault.
    assert ((list_to_set (specifiedStrings t1 IngressSuffixScheme) : gset string)
            = list_to_set (specifiedStrings t2 IngressSuffixScheme)) as ->; [|done].
    apply set_eq. intros v. rewrite !elem_of_list_to_set. apply Hsame.
  - intros Hsame Hdefault. unfold buildLoadBalancerIPAddressType.
    rewrite !explicitIPAddressTypes_specified, Hdefault.
    assert ((list_to_set (specifiedStrings t1 IngressSuffixIPAddressType) : gset string)
            = list_to_set (specifiedStrings t2 IngressSuffixIPAddressType)) as ->; [|done].
    apply set_eq. intros v. rewrite !elem_of_list_to_set. apply Hsame.
  - intros maps1 maps2 H1 H2 Hperm.
    destruct (merge_members_consistent ErrConflictingTag
                (λ ing, ParseStringMapAnnotation (annotationParser t1) IngressSuffixTags
                          (Annotations ing)) _ _ H1) as [Hok1 Herr1].
    destruct (merge_members_consistent ErrConflictingTag
                (λ ing, ParseStringMapAnnotation (annotationParser t2) IngressSuffixTags
                          (Annotations ing)) _ _ H2) as [Hok2 Herr2].
    fold (buildLoadBalancerTags t1) in Hok1, Herr1.
    fold (buildLoadBalancerTags t2) in Hok2, Herr2.
    assert (Hsame : consistent maps1 →
              ∃ tags, buildLoadBalancerTags t1 = Ok tags ∧ buildLoadBalancerTags t2 = Ok tags
                      ∧ ∀ k v, tags !! k = Some v ↔ given maps1 k v).
    { intros Hcons.
      destruct (Hok1 Hcons) as (merged1 & E1 & Hm1).
      destruct (Hok2 (consistent_Permutation _ _ Hperm Hcons)) as (merged2 & E2 & Hm2).
      exists merged1. split; [done|]. split; [|done]. rewrite E2. f_equal.
      apply map_eq. intros k. apply option_eq. intros v.
      by rewrite Hm1, Hm2, (given_Permutation maps1 maps2 k v Hperm). }
    assert (Hboth : ¬ consistent maps1 →
              (∃ k v1 v2, buildLoadBalancerTags t1 = Err (ErrConflictingTag k v1 v2)
                          ∧ v1 ≠ v2 ∧ given maps1 k v1 ∧ given maps1 k v2)
              ∧ (∃ k v1 v2, buildLoadBalancerTags t2 = Err (ErrConflictingTag k v1 v2)
                            ∧ v1 ≠ v2 ∧ given maps1 k v1 ∧ given maps1 k v2)).
    { intros Hnot. split; [by apply Herr1|].
      destruct Herr2 as (k & v1 & v2 & E & Hne & Hg1 & Hg2).
      { intros Hcons. apply Hnot. symmetry in Hperm.
        by apply (consistent_Permutation _ _ Hperm). }
      exists k, v1, v2. split; [done|]. split; [done|].
      by rewrite !(given_Permutation maps1 maps2 _ _ Hperm). }
    split; [|split; [|split; [exact Hsame|exact Hboth]]].
    + intros Hcons.
      destruct (Hok1 Hcons) as (merged1 & -> & Hm1).
      destruct (Hok2 (consistent_Permutation _ _ Hperm Hcons)) as (merged2 & -> & Hm2).
      f_equal. apply map_eq. intros k. apply option_eq. intros v.
      by rewrite Hm1, Hm2, (given_Permutation maps1 maps2 k v Hperm).
    + split; intros [e He].
      * destruct Herr2 as (k & v1 & v2 & -> & _); [|by eexists].
        intros Hcons. symmetry in Hperm.
        destruct (Hok1 (consistent_Permutation _ _ Hperm Hcons)) as (? & ? & _).
        congruence.
      * destruct Herr1 as (k & v1 & v2 & -> & _); [|by eexists].
        intros Hcons.
        destruct (Hok2 (consistent_Permutation _ _ Hperm Hcons)) as (? & ? & _).
        congruence.
Qed.

(** Three members ask for [internal], [internet-facing] and [internal];
    two members ask for [internet-facing] and [internal]: the same
    conflict. Two members have the tags [a=1] and [a=2], in one order
    and in the other: both merges fail. *)
Lemma member_order_witness :
  buildLoadBalancerScheme
    (Sample.task Sample.awesome
       [Sample.ingress [("scheme", "internal")];
        Sample.ingress [("scheme", "internet-facing")];
        Sample.ingress [("scheme", "internal")]] [])
  = buildLoadBalancerScheme
      (Sample.task Sample.awesome
         [Sample.ingress [("scheme", "internet-facing")];
          Sample.ingress [("scheme", "internal")]] [])
  ∧ (∃ k v1 v2,
       buildLoadBalancerTags
         (Sample.task Sample.awesome
            [Sample.ingress [("tags", "a=2")]; Sample.ingress [("tags", "a=1")]] [])
       = Err (ErrConflictingTag k v1 v2)
       ∧ v1 ≠ v2
       ∧ given [ {["a" := "1"]}; {["a" := "2"]} ] k v1
       ∧ given [ {["a" := "1"]}; {["a" := "2"]} ] k v2).
Proof.
  split.
  - apply (proj1 (member_order _ _)); [|reflexivity].
    intros v.
    change (v ∈ ["internal"; "internet-facing"; "internal"]
            ↔ v ∈ ["internet-facing"; "internal"]).
    rewrite !elem_of_cons, !elem_of_nil. tauto.
  - refine (proj2 (proj2 (proj2 (proj2 (proj2 (proj2 (member_order
              (Sample.task Sample.awesome
                 [Sample.ingress [("tags", "a=1")]; Sample.ingress [("tags", "a=2")]] [])
              (Sample.task Sample.awesome
                 [Sample.ingress [("tags", "a=2")]; Sample.ingress [("tags", "a=1")]] [])))
              [ {["a" := "1"]}; {["a" := "2"]} ] [ {["a" := "2"]}; {["a" := "1"]} ]
              _ _ _))) _)).
    + repeat constructor; eexists; (split; [vm_compute; reflexivity|reflexivity]).
    + repeat constructor; eexists; (split; [vm_compute; reflexivity|reflexivity]).
    + apply Permutation_swap.
    + intros Hcons.
      assert ("1" = "2") as Habs; [|discriminate Habs].
      apply (Hcons {["a" := "1"]} {["a" := "2"]} "a");
        [by left|right; by left|apply lookup_singleton_eq|apply lookup_singleton_eq].
Defined.

(** ** What an explicit list makes irrelevant *)

Lemma specifiedLists_ext `{P : Packages} (t1 t2 : defaultModelBuildTask) (suffix : string) :
  annotationParser t1 = annotationParser t2 → ingGroup t1 = ingGroup t2 →
  specifiedLists t1 suffix = specifiedLists t2 suffix.
Proof. unfold specifiedLists. by intros -> ->. Qed.

(** X11. When some member specifies subnets, the build of the subnet
    mappings reads the annotations, the EC2 client and the VPC of the
    task, and nothing else: not the scheme, not the subnet discovery.
    When some member specifies security groups, the build of the security
    groups does not depend on the listen ports, on the address family or
    on the builder of the managed security group. *)
Theorem explicit_frame `{P : Packages} (t1 t2 : defaultModelBuildTask) :
  annotationParser t1 = annotationParser t2 →
  ingGroup t1 = ingGroup t2 →
  ec2Client t1 = ec2Client t2 →
  vpcID t1 = vpcID t2 →
  (specifiedLists t1 IngressSuffixSubnets ≠ [] →
   ∀ scheme1 scheme2,
     buildLoadBalancerSubnetMappings t1 scheme1 = buildLoadBalancerSubnetMappings t2 scheme2)
  ∧ (specifiedLists t1 IngressSuffixSecurityGroups ≠ [] →
     ∀ cfg1 cfg2 ipAddressType1 ipAddressType2,
       buildLoadBalancerSecurityGroups t1 cfg1 ipAddressType1
       = buildLoadBalancerSecurityGroups t2 cfg2 ipAddressType2).
Proof.
  intros Hparser Hgroup Hec2 Hvpc. split.
  - intros Hne scheme1 scheme2.
    rewrite !buildLoadBalancerSubnetMappings_explicit;
      rewrite <- ?(specifiedLists_ext t1 t2) by done; [|done..].
    destruct (chooseSubnetNameOrIDs _) as [chosen|e]; [|done].
    by rewrite !resolveSubnetIDsViaNameOrIDSlice_resolver, Hec2, Hvpc.
  - intros Hne cfg1 cfg2 ip1 ip2.
    rewrite !buildLoadBalancerSecurityGroups_explicit;
      rewrite <- ?(specifiedLists_ext t1 t2) by done; [|done..].
    destruct (chooseSGNameOrIDs _) as [chosen|e]; [|done].
    by rewrite !resolveSecurityGroupIDsViaNameOrIDSlice_resolver, Hec2, Hvpc.
Qed.

(** A member asks for [subnet-1,subnet-2]: the mappings are the same for
    the two schemes, whether discovery finds three subnets or none. *)
Lemma explicit_frame_witness :
  buildLoadBalancerSubnetMappings
    (Sample.task Sample.awesome
       [Sample.ingress [("subnets", "subnet-1,subnet-2")]] Sample.subnets) "internal"
  = buildLoadBalancerSubnetMappings
      (Sample.task Sample.awesome
         [Sample.ingress [("subnets", "subnet-1,subnet-2")]] []) "internet-facing".
Proof.
  refine (proj1 (explicit_frame
            (Sample.task Sample.awesome
               [Sample.ingress [("subnets", "subnet-1,subnet-2")]] Sample.subnets)
            (Sample.task Sample.awesome
               [Sample.ingress [("subnets", "subnet-1,subnet-2")]] [])
            eq_refl eq_refl eq_refl eq_refl) _ "internal" "internet-facing").
  vm_compute. discriminate.
Defined.

(** ** A group without annotations *)

Lemma omap_all_None {A B} (f : A → option B) (l : list A) :
  (∀ x, x ∈ l → f x = None) → omap f l = [].
Proof.
  induction l as [|x l IH]; intros Hall; simpl; [done|].
  rewrite (Hall x) by (by left). apply IH. intros y Hy. apply Hall. by right.
Qed.

Lemma mergeEntries_empty (conflict : string → string → string → error)
    (merged : gmap string string) :
  mergeEntries conflict merged ∅ = Ok merged.
Proof. unfold mergeEntries. by rewrite map_to_list_empty. Qed.

Lemma merge_nothing (conflict : string → string → string → error)
    (parse : Ingress → result (option (gmap string string))) (members : list Ingress)
    (merged : gmap string string) :
  (∀ ing, ing ∈ members → parse ing = Ok None) →
  forEach (λ merged ing, raw ← parse ing; mergeEntries conflict merged (default ∅ raw))
          merged members = Ok merged.
Proof.
  induction members as [|ing members IH]; intros Hall; simpl; [done|].
  rewrite (Hall ing) by (by left). cbn [mbind result_bind]. simpl.
  rewrite mergeEntries_empty. apply IH. intros ing' Hin. apply Hall. by right.
Qed.

(** X12. When no member of the group has any of the six annotations, the
    build takes everything from the task: the default scheme and the
    default address family, the subnets that discovery finds for the
    default scheme, the managed security group built for the listen
    ports and the default address family, no attribute and no tag. It
    succeeds when discovery finds at least two subnets and the managed
    security group is built, and these are its two calls, in that
    order. *)
Theorem no_annotations `{P : Packages} (t : defaultModelBuildTask)
    (cfg : gmap Z listenPortConfig) (discovered : list Subnet)
    (sg : ManagedSecurityGroup) :
  (∀ ing suffix, ing ∈ Members (ingGroup t) →
     ParseStringAnnotation (annotationParser t) suffix (Annotations ing) = None
     ∧ ParseStringSliceAnnotation (annotationParser t) suffix (Annotations ing) = None
     ∧ ParseStringMapAnnotation (annotationParser t) suffix (Annotations ing) = Ok None) →
  DiscoverSubnets (subnetsResolver t) (defaultScheme t) = Ok discovered →
  (2 ≤ length discovered)%nat →
  buildManagedSecurityGroup t cfg (defaultIPAddressType t) = Ok sg →
  buildLoadBalancerSpec t cfg =
    ([CallDiscoverSubnets (defaultScheme t);
      CallBuildManagedSecurityGroup cfg (defaultIPAddressType t)],
     Ok {| spec_Name := buildLoadBalancerName t (defaultScheme t);
           spec_Type := LoadBalancerTypeApplication;
           spec_Scheme := Some (defaultScheme t);
           spec_IPAddressType := Some (defaultIPAddressType t);
           spec_SubnetMappings := (λ id, {| SubnetID := id |}) <$> subnetIDs discovered;
           spec_SecurityGroups := [sg_GroupID sg];
           spec_LoadBalancerAttributes := [];
           spec_Tags := ∅ |}).
Proof.
  intros Hnone Hdiscover Hlen Hsg.
  assert (Hstrings : ∀ suffix, specifiedStrings t suffix = []).
  { intros suffix. apply omap_all_None. intros ing Hin. by apply Hnone. }
  assert (Hlists : ∀ suffix, specifiedLists t suffix = []).
  { intros suffix. apply omap_all_None. intros ing Hin. by apply Hnone. }
  unfold buildLoadBalancerSpec.
  rewrite scheme_default, ip_default by done. rewrite !pure_bind.
  rewrite buildLoadBalancerSubnetMappings_fallback by done.
  rewrite buildLoadBalancerSecurityGroups_fallback by done.
  rewrite Hdiscover, Hsg. rewrite decide_False by lia.
  assert (Hattrs : buildLoadBalancerAttributes t = Ok []).
  { unfold buildLoadBalancerAttributes, mergedAttributes.
    rewrite merge_nothing; [done|]. intros ing Hin. by apply Hnone. }
  assert (Htags : buildLoadBalancerTags t = Ok ∅).
  { unfold buildLoadBalancerTags.
    rewrite merge_nothing; [done|]. intros ing Hin. by apply Hnone. }
  rewrite Hattrs, Htags. reflexivity.
Qed.

(** Two members without annotations, on the sample account where
    discovery finds the first two subnets. *)
Lemma no_annotations_witness :
  outcome (buildLoadBalancerSpec
             (Sample.task Sample.awesome [Sample.ingress []; Sample.ingress []]
                (take 2 Sample.subnets)) ∅)
  = Ok {| spec_Name := "k8s-awesomegroup-f1733e2047";
          spec_Type := "application";
          spec_Scheme := Some "internal";
          spec_IPAddressType := Some "ipv4";
          spec_SubnetMappings := [ {| SubnetID := "subnet-1" |}; {| SubnetID := "subnet-2" |} ];
          spec_SecurityGroups :=
            [ResourceFieldStringToken "ManagedLBSecurityGroup" "status/groupID"];
          spec_LoadBalancerAttributes := [];
          spec_Tags := ∅ |}.
Proof.
  rewrite (no_annotations
             (Sample.task Sample.awesome [Sample.ingress []; Sample.ingress []]
                (take 2 Sample.subnets)) ∅
             (Sample.subnet <$> take 2 Sample.subnets)
             {| sg_GroupID := ResourceFieldStringToken "ManagedLBSecurityGroup"
                                "status/groupID" |}).
  - vm_compute. reflexivity.
  - intros ing suffix Hin.
    apply elem_of_cons in Hin as [-> | Hin];
      [|apply list_elem_of_singleton in Hin as ->]; by vm_compute.
  - reflexivity.
  - simpl. lia.
  - reflexivity.
Defined.

(** ** The spec and the calls that were made for it *)

Lemma buildLoadBalancerSpec_calls `{P : Packages} (t : defaultModelBuildTask)
    (cfg : gmap Z listenPortConfig) (spec : LoadBalancerSpec) :
  outcome (buildLoadBalancerSpec t cfg) = Ok spec →
  ∃ scheme ipAddressType,
    spec_Scheme spec = Some scheme
    ∧ spec_IPAddressType spec = Some ipAddressType
    ∧ spec_Name spec = buildLoadBalancerName t scheme
    ∧ calls (buildLoadBalancerSpec t cfg)
      = calls (buildLoadBalancerSubnetMappings t scheme)
        ++ calls (buildLoadBalancerSecurityGroups t cfg ipAddressType).
Proof.
  unfold buildLoadBalancerSpec. rewrite pure_bind.
  destruct (buildLoadBalancerScheme t) as [scheme|e]; [|done].
  rewrite pure_bind.
  destruct (buildLoadBalancerIPAddressType t) as [ip|e]; [|done].
  intros Hspec. exists scheme, ip.
  apply outcome_bind_inv in Hspec as (mappings & Hm & Hspec).
  rewrite calls_bind, Hm.
  apply outcome_bind_inv in Hspec as (sgs & Hsgs & Hspec).
  rewrite calls_bind, Hsgs.
  rewrite pure_bind in Hspec |- *.
  destruct (buildLoadBalancerAttributes t) as [attributes|e]; [|done].
  rewrite pure_bind in Hspec |- *.
  destruct (buildLoadBalancerTags t) as [tags|e]; [|done].
  unfold outcome, mret, M_ret in Hspec. simpl in Hspec. injection Hspec as <-.
  simpl. by rewrite app_nil_r.
Qed.

(** X13. In a spec that is built, the scheme is the one for which the
    subnets were discovered and the one that the name is generated from,
    and the address family is the one for which the managed security
    group was built: when no member specifies subnets, the build called
    discovery once, for the scheme of the spec; when no member specifies
    security groups, it built the managed security group once, for the
    listen ports it was given and the address family of the spec. *)
Theorem spec_matches_calls `{P : Packages} (t : defaultModelBuildTask)
    (cfg : gmap Z listenPortConfig) (spec : LoadBalancerSpec) :
  outcome (buildLoadBalancerSpec t cfg) = Ok spec →
  ∃ scheme ipAddressType,
    spec_Scheme spec = Some scheme
    ∧ spec_IPAddressType spec = Some ipAddressType
    ∧ spec_Name spec = buildLoadBalancerName t scheme
    ∧ (specifiedLists t IngressSuffixSubnets = [] →
       ∀ s, CallDiscoverSubnets s ∈ calls (buildLoadBalancerSpec t cfg) ↔ s = scheme)
    ∧ (specifiedLists t IngressSuffixSecurityGroups = [] →
       ∀ c i, CallBuildManagedSecurityGroup c i ∈ calls (buildLoadBalancerSpec t cfg)
              ↔ c = cfg ∧ i = ipAddressType).
Proof.
  intros Hspec.
  destruct (buildLoadBalancerSpec_calls t cfg spec Hspec)
    as (scheme & ip & Hscheme & Hip & Hname & Hcalls).
  exists scheme, ip. repeat (split; [done|]). rewrite Hcalls. split.
  - intros Hnil s. rewrite elem_of_app.
    rewrite buildLoadBalancerSubnetMappings_fallback by done. unfold calls at 1. simpl.
    rewrite list_elem_of_singleton. split.
    + intros [[= ->] | Hin]; [done|].
      destruct (specifiedLists t IngressSuffixSecurityGroups) eqn:Hsg.
      * rewrite buildLoadBalancerSecurityGroups_fallback in Hin by done.
        unfold calls in Hin. simpl in Hin. by apply list_elem_of_singleton in Hin.
      * apply buildLoadBalancerSecurityGroups_explicit_calls in Hin as [req ?];
          [done|by rewrite Hsg].
    + intros ->. by left.
  - intros Hnil c i. rewrite elem_of_app.
    rewrite buildLoadBalancerSecurityGroups_fallback by done. unfold calls at 2. simpl.
    rewrite list_elem_of_singleton. split.
    + intros [Hin | [= -> ->]]; [|done].
      destruct (specifiedLists t IngressSuffixSubnets) eqn:Hsub.
      * rewrite buildLoadBalancerSubnetMappings_fallback in Hin by done.
        unfold calls in Hin. simpl in Hin. by apply list_elem_of_singleton in Hin.
      * apply buildLoadBalancerSubnetMappings_explicit_calls in Hin as [req ?];
          [done|by rewrite Hsub].
    + intros [-> ->]. by right.
Qed.

(** A member asks for the scheme [internet-facing] and the address family
    [dualstack], and no member for subnets or security groups. *)
Lemma spec_matches_calls_witness :
  ∃ scheme ipAddressType,
    Some "internet-facing" = Some scheme
    ∧ Some "dualstack" = Some ipAddressType
    ∧ "k8s-awesomegroup-f4076d2070"
      = buildLoadBalancerName
          (Sample.task Sample.awesome
             [Sample.ingress [("scheme", "internet-facing"); ("ip-address-type", "dualstack")]]
             Sample.subnets) scheme
    ∧ (specifiedLists
         (Sample.task Sample.awesome
            [Sample.ingress [("scheme", "internet-facing"); ("ip-address-type", "dualstack")]]
            Sample.subnets) "subnets" = [] →
       ∀ s, CallDiscoverSubnets s
            ∈ calls (buildLoadBalancerSpec
                       (Sample.task Sample.awesome
                          [Sample.ingress [("scheme", "internet-facing");
                                           ("ip-address-type", "dualstack")]]
                          Sample.subnets) ∅)
            ↔ s = scheme)
    ∧ (specifiedLists
         (Sample.task Sample.awesome
            [Sample.ingress [("scheme", "internet-facing"); ("ip-address-type", "dualstack")]]
            Sample.subnets) "security-groups" = [] →
       ∀ c i, CallBuildManagedSecurityGroup c i
              ∈ calls (buildLoadBalancerSpec
                         (Sample.task Sample.awesome
                            [Sample.ingress [("scheme", "internet-facing");
                                             ("ip-address-type", "dualstack")]]
                            Sample.subnets) ∅)
              ↔ c = ∅ ∧ i = ipAddressType).
Proof.
  refine (spec_matches_calls
            (Sample.task Sample.awesome
               [Sample.ingress [("scheme", "internet-facing"); ("ip-address-type", "dualstack")]]
               Sample.subnets) ∅
            {| spec_Name := "k8s-awesomegroup-f4076d2070";
               spec_Type := "application";
               spec_Scheme := Some "internet-facing";
               spec_IPAddressType := Some "dualstack";
               spec_SubnetMappings :=
                 [ {| SubnetID := "subnet-1" |}; {| SubnetID := "subnet-2" |};
                   {| SubnetID := "subnet-3" |} ];
               spec_SecurityGroups :=
                 [ResourceFieldStringToken "ManagedLBSecurityGroup" "status/groupID"];
               spec_LoadBalancerAttributes := [];
               spec_Tags := ∅ |} _).
  vm_compute. reflexivity.
Defined.
